(** * wow-sync: frame codec, action state machine, command router,
      idle scheduler, client registry and connection supervisor

    A shallow embedding of [wowsync-client.py] and [wowsync-server.py].

    Conventions of the embedding.
    - Readings of [time.time()] are rationals ([Q], seconds since the epoch);
      every function that reads the clock takes the reading as an argument,
      one argument per read, in the order of the reads.
    - Python exceptions are values of [exn]; code that may raise returns a
      [result].
    - Values produced by [json.loads] are values of [pyval].
    - What lies outside the repository (the mouse and keyboard libraries, the
      sockets, [str()], the JSON text syntax) is an explicit argument: an
      outcome supplied by the environment. *)

From Stdlib Require Import ZArith QArith Lia Lqa List String Ascii Bool.
From Stdlib Require Import Strings.Byte.
Import ListNotations.

(* ================================================================= *)
(** ** Exceptions and results *)

Inductive exn : Type :=
| OverflowError
| ValueError
| IncompleteReadError
| TypeError
| AttributeError
| JSONDecodeError.

Inductive result (A : Type) : Type :=
| Ok (a : A)
| Raise (e : exn).

Arguments Ok {A} a.
Arguments Raise {A} e.

Definition bind {A B : Type} (r : result A) (k : A -> result B) : result B :=
  match r with
  | Ok a => k a
  | Raise e => Raise e
  end.

Notation "x <- r ;; k" := (bind r (fun x => k))
  (at level 61, r at next level, right associativity).
Notation "' p <- r ;; k" := (bind r (fun p => k))
  (at level 61, p pattern, r at next level, right associativity).

(* ================================================================= *)
(** ** Frame codec *)

Module Frame.

Local Open Scope Z_scope.

Definition bytes := list byte.

Definition Z_of_byte (b : byte) : Z := Z.of_N (Byte.to_N b).

Definition byte_of_Z (z : Z) : byte :=
  match Byte.of_N (Z.to_N (z mod 256)) with
  | Some b => b
  | None => x00
  end.

(** The [len] low-order base-256 digits of [n], least significant first. *)
Fixpoint digits_le (len : nat) (n : Z) : bytes :=
  match len with
  | O => []
  | S k => byte_of_Z (n mod 256) :: digits_le k (n / 256)
  end.

(** [n.to_bytes(len, byteorder='big')]: [OverflowError] when [n] is negative
    or does not fit in [len] bytes. *)
Definition to_bytes (n : Z) (len : nat) : result bytes :=
  if (n <? 0) || (256 ^ Z.of_nat len <=? n)
  then Raise OverflowError
  else Ok (rev (digits_le len n)).

(** [int.from_bytes(bs, byteorder='big')]. *)
Definition from_bytes (bs : bytes) : Z :=
  fold_left (fun acc b => acc * 256 + Z_of_byte b) bs 0.

(** [len(message_bytes)]. *)
Definition len (bs : bytes) : Z := Z.of_nat (List.length bs).

(** The frame built and written by [AsyncClient.send_message] and
    [WowSyncServer.send_to_all_clients]:
      [length_bytes = message_length.to_bytes(4, byteorder='big')]
      [writer.write(length_bytes + message_bytes)]. *)
Definition encode (message_bytes : bytes) : result bytes :=
  length_bytes <- to_bytes (len message_bytes) 4 ;;
  Ok (length_bytes ++ message_bytes).

(** [StreamReader.readexactly(n)] on a stream whose remaining content is
    [buf], after which the peer has closed: the first [n] bytes and what is
    left, or [IncompleteReadError] when fewer than [n] bytes remain. *)
Definition readexactly (n : Z) (buf : bytes) : result (bytes * bytes) :=
  if n <? 0 then Raise ValueError
  else if len buf <? n
  then Raise IncompleteReadError
  else Ok (firstn (Z.to_nat n) buf, skipn (Z.to_nat n) buf).

(** One turn of the read loop of [AsyncClient.connect_to_server] (and of
    [WowSyncServer.handle_client]), up to the UTF-8 decoding: the payload of
    the next frame and the rest of the stream. [readexactly(4)] returns four
    bytes or raises, so the branch [if not length_data: break] is not
    taken. *)
Definition decode (buf : bytes) : result (bytes * bytes) :=
  '(length_data, rest) <- readexactly 4 buf ;;
  let message_length := from_bytes length_data in
  '(message_data, rest') <- readexactly message_length rest ;;
  Ok (message_data, rest').

End Frame.

(* ================================================================= *)
(** ** Python values, as [json.loads] builds them *)

Module Py.

Inductive pyfloat : Type :=
| FNaN
| FInf (negative : bool)
| FFinite (q : Q).

(** A [dict] is the list of its items in insertion order; its keys are
    strings, as in every object that [json.loads] returns. *)
#[warnings="-register-all"]
Inductive pyval : Type :=
| PNone
| PBool (b : bool)
| PInt (z : Z)
| PFloat (f : pyfloat)
| PStr (s : string)
| PList (l : list pyval)
| PDict (d : list (string * pyval)).

(** Truth value of a value used as a condition ([if window:], [x and y]). *)
Definition truthy (v : pyval) : bool :=
  match v with
  | PNone => false
  | PBool b => b
  | PInt z => negb (z =? 0)%Z
  | PFloat FNaN => true
  | PFloat (FInf _) => true
  | PFloat (FFinite q) => negb (Qeq_bool q 0)
  | PStr s => negb (String.eqb s "")
  | PList l => match l with [] => false | _ :: _ => true end
  | PDict d => match d with [] => false | _ :: _ => true end
  end.

(** Lists and dicts have no hash; every other value here has one. *)
Definition hashable (v : pyval) : bool :=
  match v with
  | PList _ | PDict _ => false
  | _ => true
  end.

Fixpoint lookup {A : Type} (k : string) (d : list (string * A)) : option A :=
  match d with
  | [] => None
  | (k', v) :: d' => if String.eqb k k' then Some v else lookup k d'
  end.

(** [data.get(key, default)]; [data.get(key)] is [get data key PNone].
    A value that is not a dict has no attribute [get]. *)
Definition get (data : pyval) (key : string) (default : pyval) : result pyval :=
  match data with
  | PDict d =>
      match lookup key d with
      | Some v => Ok v
      | None => Ok default
      end
  | _ => Raise AttributeError
  end.

(** [v == s] for a string literal [s]. *)
Definition eq_str (v : pyval) (s : string) : bool :=
  match v with
  | PStr t => String.eqb t s
  | _ => false
  end.

(** [key in d] for a dict [d] with string keys: [TypeError] when [key] has
    no hash; a key that is not a string equals none of the dict's keys. *)
Definition contains {A : Type} (d : list (string * A)) (key : pyval) : result bool :=
  match key with
  | PList _ | PDict _ => Raise TypeError
  | PStr k => Ok (match lookup k d with Some _ => true | None => false end)
  | _ => Ok false
  end.

(** [str()] on strings, where it is the identity; the concrete examples
    below, whose windows are strings, use it. *)
Definition str_on_strings (v : pyval) : string :=
  match v with
  | PStr s => s
  | _ => EmptyString
  end.

End Py.

Import Py.

(* ================================================================= *)
(** ** Action state machine: [class StateManager] *)

Module State.

Local Open Scope Q_scope.
Local Open Scope string_scope.

Record StateManager : Type := mkStateManager {
  current_state : string;
  last_action_time : Q;
  action_cooldown : Q;
  idle_timeout : Q;
  active_window : pyval
}.

(** [StateManager.__init__]. *)
Definition init : StateManager :=
  {| current_state := "idle";
     last_action_time := 0;
     action_cooldown := 2;
     idle_timeout := 10;
     active_window := PNone |}.

(** [time.time() - self.last_action_time >= self.action_cooldown], with
    [now] the reading of [time.time()]. *)
Definition can_execute_action (self : StateManager) (now : Q) : bool :=
  Qle_bool (action_cooldown self) (now - last_action_time self).

Section WithStr.

(** [str()] of a value, as the f-string [f"active_{window_key}"] applies it. *)
Variable py_str : pyval -> string.

Definition set_active_window (self : StateManager) (window_key : pyval) (now : Q)
  : StateManager :=
  {| current_state := "active_" ++ py_str window_key;
     last_action_time := now;
     action_cooldown := action_cooldown self;
     idle_timeout := idle_timeout self;
     active_window := window_key |}.

End WithStr.

Definition set_idle (self : StateManager) : StateManager :=
  {| current_state := "idle";
     last_action_time := last_action_time self;
     action_cooldown := action_cooldown self;
     idle_timeout := idle_timeout self;
     active_window := PNone |}.

Definition is_idle (self : StateManager) : bool :=
  String.eqb (current_state self) "idle".

Definition should_return_to_idle (self : StateManager) (now : Q) : bool :=
  if is_idle self then false
  else Qle_bool (idle_timeout self) (now - last_action_time self).

Definition get_current_state (self : StateManager) : string :=
  current_state self.

(** A call on the state machine, with the clock reading it makes, if any. *)
Inductive call : Type :=
| SetActiveWindow (window_key : pyval) (now : Q)
| SetIdle.

Definition apply_call (py_str : pyval -> string) (self : StateManager) (c : call)
  : StateManager :=
  match c with
  | SetActiveWindow w now => set_active_window py_str self w now
  | SetIdle => set_idle self
  end.

Definition run (py_str : pyval -> string) (calls : list call) : StateManager :=
  fold_left (apply_call py_str) calls init.

(** The clock reading of the last [set_active_window] among [calls]. *)
Fixpoint last_active (calls : list call) : option Q :=
  match calls with
  | [] => None
  | c :: rest =>
      match last_active rest with
      | Some t => Some t
      | None =>
          match c with
          | SetActiveWindow _ now => Some now
          | SetIdle => None
          end
      end
  end.

(** The variant of the spec's ClientState. *)
Inductive variant : Type :=
| Idle
| Active (target_id : pyval).

Definition variant_after (v : variant) (c : call) : variant :=
  match c with
  | SetActiveWindow w _ => Active w
  | SetIdle => Idle
  end.

(** The variant the calls leave the machine in, from Idle. *)
Definition variant_of (calls : list call) : variant :=
  fold_left variant_after calls Idle.

(** The string [current_state] and the field [active_window] encode the
    variant. *)
Definition encodes (py_str : pyval -> string) (s : StateManager) (v : variant)
  : Prop :=
  match v with
  | Idle => current_state s = "idle" /\ active_window s = PNone
  | Active w => current_state s = "active_" ++ py_str w /\ active_window s = w
  end.

End State.

Import State.

(* ================================================================= *)
(** ** Action execution: [WindowManager.focus_window] and
       [ActionHandler.execute_action] *)

Module Action.

(** What the input-injection libraries do is an outcome of the environment:
    - [mouse_ok k]: the [mouse.move]/[mouse.click] calls of [focus_window]
      on window [k] complete without an exception;
    - [keys_ok k profile]: the [try] block of [execute_action] (the sleeps,
      the reading of [profile], the key presses and releases) on window [k]
      completes without an exception. *)
Record Env : Type := mkEnv {
  mouse_ok : string -> bool;
  keys_ok : string -> pyval -> bool
}.

(** [WindowManager.active_windows] and [ActionHandler.actions_config]: dicts
    with string keys, in the order of the configuration files. *)
Record Config : Type := mkConfig {
  active_windows : list (string * pyval);
  actions_config : list (string * pyval)
}.

Section WithEnv.

Variable env : Env.
Variable cfg : Config.

(** The membership test is made before the [try]: its [TypeError]
    propagates to the caller. *)
Definition focus_window (window_key : pyval) : result bool :=
  found <- contains (active_windows cfg) window_key ;;
  if negb found then Ok false
  else
    match window_key with
    | PStr k => Ok (mouse_ok env k)
    | _ => Ok false
    end.

Definition execute_action (window_key action_name : pyval) : result bool :=
  focused <- focus_window window_key ;;
  if negb focused then Ok false
  else
    known <- contains (actions_config cfg) action_name ;;
    if negb known then Ok false
    else
      match window_key, action_name with
      | PStr k, PStr a =>
          match lookup a (actions_config cfg) with
          | Some action => Ok (keys_ok env k action)
          | None => Ok false
          end
      | _, _ => Ok false
      end.

(** [WindowManager.get_window_list]. *)
Definition get_window_list : list string := map fst (active_windows cfg).

End WithEnv.

End Action.

(* ================================================================= *)
(** ** Command router: [AsyncClient.handle_server_message] *)

Module Router.

Local Open Scope string_scope.

(** What the handler acts on: the state machine, and the responses it has
    handed to [send_message] (the argument of [json.dumps], oldest first). *)
Record world : Type := mkWorld {
  state_manager : StateManager;
  sent : list pyval
}.

(** A computation that may raise after it has changed the world. *)
Definition M (A : Type) : Type := world -> result A * world.

Definition ret {A : Type} (a : A) : M A := fun w => (Ok a, w).

Definition bindM {A B : Type} (m : M A) (k : A -> M B) : M B :=
  fun w =>
    match m w with
    | (Ok a, w') => k a w'
    | (Raise e, w') => (Raise e, w')
    end.

Definition lift {A : Type} (r : result A) : M A := fun w => (r, w).

Definition read_state {A : Type} (f : StateManager -> A) : M A :=
  fun w => (Ok (f (state_manager w)), w).

Definition update_state (f : StateManager -> StateManager) : M unit :=
  fun w => (Ok tt, {| state_manager := f (state_manager w); sent := sent w |}).

(** [await self.send_message(json.dumps(response))]: the transport catches
    its own exceptions, so this never raises. *)
Definition send_message (response : pyval) : M unit :=
  fun w => (Ok tt, {| state_manager := state_manager w;
                      sent := sent w ++ [response] |}).

(** [try: body  except Exception as e: logger.error(...)]. *)
Definition try_except (body : M unit) : world -> world :=
  fun w => snd (body w).

Notation "x <~ m ;; k" := (bindM m (fun x => k))
  (at level 61, m at next level, right associativity).
Notation "m ;;; k" := (bindM m (fun _ => k))
  (at level 61, right associativity).

Section WithEnv.

Variable json_loads : string -> result pyval.
Variable py_str : pyval -> string.
Variable env : Action.Env.
Variable cfg : Action.Config.

(** [t_check] is the clock reading of [can_execute_action], [t_set] that of
    [set_active_window]. *)
Definition handle_server_message (message : string) (t_check t_set : Q)
  : world -> world :=
  try_except (
    data <~ lift (json_loads message) ;;
    command <~ lift (get data "command" PNone) ;;
    window <~ lift (get data "window" PNone) ;;
    action <~ lift (get data "action" (PStr "f1_action")) ;;
    if eq_str command "execute" && truthy window then
      allowed <~ read_state (fun s => can_execute_action s t_check) ;;
      if negb allowed then
        send_message (PDict [("status", PStr "cooldown");
                             ("window", window);
                             ("action", action)])
      else
        update_state (fun s => set_active_window py_str s window t_set) ;;;
        success <~ lift (Action.execute_action env cfg window action) ;;
        state <~ read_state get_current_state ;;
        send_message (PDict [("status", PStr (if success then "success" else "error"));
                             ("window", window);
                             ("action", action);
                             ("state", PStr state)])
    else ret tt).

End WithEnv.

(** A parsed message is an execute command for [window] with [action]: the
    condition [command == 'execute' and window] of the handler holds. *)
Definition is_execute (data window action : pyval) : Prop :=
  get data "command" PNone = Ok (PStr "execute") /\
  get data "window" PNone = Ok window /\
  truthy window = true /\
  get data "action" (PStr "f1_action") = Ok action.

(** The response of the cooldown branch. *)
Definition cooldown_response (window action : pyval) : pyval :=
  PDict [("status", PStr "cooldown"); ("window", window); ("action", action)].

(** The response after the action was attempted. *)
Definition outcome_response (success : bool) (window action : pyval)
  (state : string) : pyval :=
  PDict [("status", PStr (if success then "success" else "error"));
         ("window", window);
         ("action", action);
         ("state", PStr state)].

End Router.

(* ================================================================= *)
(** ** Idle scheduler: [IdleManager.start_idle_mode] *)

Module IdleLoop.

Record IdleManager : Type := mkIdleManager {
  is_running : bool;
  current_window_index : nat
}.

(** [IdleManager.__init__]. *)
Definition init : IdleManager :=
  {| is_running := false; current_window_index := 0 |}.

(** [windows[self.current_window_index % len(windows)]]. *)
Definition select (windows : list string) (index : nat) : string :=
  nth (index mod List.length windows) windows ""%string.

(** [(self.current_window_index + 1) % len(windows)]. *)
Definition advance (windows : list string) (index : nat) : nat :=
  (index + 1) mod List.length windows.

(** What one turn of the loop did. *)
Inductive event : Type :=
| ReturnedToIdle
| Focused (window_key : string) (ok : bool)
| IdleAction (window_key : string).

(** What the environment supplies to one turn of the loop: the clock
    reading of [should_return_to_idle]; what the other task (the command
    router) does to the state machine while this one is suspended in
    [await asyncio.sleep(idle_delay)], in [_perform_idle_action] and in
    [await asyncio.sleep(cycle_delay)]; and whether [stop_idle_mode] is
    called during the turn. *)
Record turn : Type := mkTurn {
  now : Q;
  during_delay : StateManager -> StateManager;
  during_action : StateManager -> StateManager;
  during_sleep : StateManager -> StateManager;
  stop_requested : bool
}.

(** [stop_idle_mode]. *)
Definition stop_idle_mode (im : IdleManager) : IdleManager :=
  {| is_running := false; current_window_index := current_window_index im |}.

Section WithEnv.

Variable env : Action.Env.
Variable cfg : Action.Config.

(** The body of [while self.is_running:], up to the sleep that ends it. *)
Definition iteration (t : turn) (sm : StateManager) (im : IdleManager)
  : StateManager * IdleManager * list event :=
  let '(sm1, ev1) :=
    if should_return_to_idle sm (now t)
    then (set_idle sm, [ReturnedToIdle])
    else (sm, []) in
  if is_idle sm1 then
    let windows := Action.get_window_list cfg in
    match windows with
    | [] => (sm1, im, ev1)
    | _ :: _ =>
        let window_key := select windows (current_window_index im) in
        let '(sm2, ev2) :=
          match Action.focus_window env cfg (PStr window_key) with
          | Ok true =>
              let sm' := during_delay t sm1 in
              if is_idle sm'
              then (during_action t sm', [Focused window_key true; IdleAction window_key])
              else (sm', [Focused window_key true])
          | _ => (sm1, [Focused window_key false])
          end in
        (sm2,
         {| is_running := is_running im;
            current_window_index := advance windows (current_window_index im) |},
         ev1 ++ ev2)
    end
  else (sm1, im, ev1).

(** [while self.is_running:], for as long as the environment is described. *)
Fixpoint iterations (ts : list turn) (sm : StateManager) (im : IdleManager)
  : StateManager * IdleManager * list event :=
  match ts with
  | [] => (sm, im, [])
  | t :: ts' =>
      if is_running im then
        let '(sm1, im1, ev1) := iteration t sm im in
        let im1' := if stop_requested t then stop_idle_mode im1 else im1 in
        let '(sm2, im2, ev2) := iterations ts' (during_sleep t sm1) im1' in
        (sm2, im2, ev1 ++ ev2)
      else (sm, im, [])
  end.

Definition start_idle_mode (ts : list turn) (sm : StateManager) (im : IdleManager)
  : StateManager * IdleManager * list event :=
  if is_running im then (sm, im, [])
  else
    iterations ts (set_idle sm)
      {| is_running := true; current_window_index := current_window_index im |}.

End WithEnv.

(** A turn during which no command arrives and no stop is requested. *)
Definition quiet (t : Q) : turn :=
  {| now := t;
     during_delay := fun s => s;
     during_action := fun s => s;
     during_sleep := fun s => s;
     stop_requested := false |}.

(** The windows on which a focus was attempted, in order. *)
Fixpoint visited (evs : list event) : list string :=
  match evs with
  | [] => []
  | Focused w _ :: evs' => w :: visited evs'
  | _ :: evs' => visited evs'
  end.

End IdleLoop.

(* ================================================================= *)
(** ** Client registry: [WowSyncServer] *)

Module Registry.

(** A registered connection, the tuple [(reader, writer)]: two tuples are
    equal when they hold the same stream objects, so a connection is
    identified by a number. *)
Definition conn := nat.

Inductive event : Type :=
| Wrote (c : conn) (frame : Frame.bytes)
| WriteFailed (c : conn)
| Removed (c : conn).

(** [c in clients]. *)
Definition mem (c : conn) (clients : list conn) : bool :=
  existsb (Nat.eqb c) clients.

(** [clients.remove(c)] where [c in clients]: the first occurrence goes. *)
Fixpoint remove (c : conn) (clients : list conn) : list conn :=
  match clients with
  | [] => []
  | c' :: rest => if Nat.eqb c c' then rest else c' :: remove c rest
  end.

(** [self.clients.append((reader, writer))] in [handle_client]. *)
Definition register (c : conn) (clients : list conn) : list conn :=
  clients ++ [c].

(** The [finally] block of [handle_client]. *)
Definition unregister (c : conn) (clients : list conn) : list conn :=
  if mem c clients then remove c clients else clients.

Section WithEnv.

(** [message.encode('utf-8')], the built-in codec. *)
Variable utf8_encode : string -> result Frame.bytes.

(** [write_ok c]: [writer.write] and [writer.drain()] on [c] complete without
    an exception. *)
Variable write_ok : conn -> bool.

(** The event of the [try] statement on one connection. *)
Definition write_event (frame : Frame.bytes) (c : conn) : event :=
  if write_ok c then Wrote c frame else WriteFailed c.

(** The first loop of [send_to_all_clients] from the point where no other
    task runs any more, over what remains to visit of [self.clients]: the
    connections whose write failed, and the events, both in order. *)
Fixpoint write_loop (frame : Frame.bytes) (clients : list conn)
  : list conn * list event :=
  match clients with
  | [] => ([], [])
  | c :: rest =>
      let '(disconnected, evs) := write_loop frame rest in
      if write_ok c
      then (disconnected, write_event frame c :: evs)
      else (c :: disconnected, write_event frame c :: evs)
  end.

(** The first loop of [send_to_all_clients],
    [for reader, writer in self.clients:], on the live list: the iterator
    holds the index [i] of the next element and looks it up in the list as
    it is at that moment; the loop ends when the index is past the end.
    [await writer.drain()] in the body may suspend the task: [others] is what
    the other tasks (the [finally] block of a reader, a new connection)
    do to the registry during each turn, in order (the identity for a turn
    that does not suspend); once it is exhausted no other task runs. The
    result: the connections whose write
    failed, the events, and the registry when the loop ends. *)
Fixpoint write_loop_live (frame : Frame.bytes)
  (others : list (list conn -> list conn)) (i : nat) (clients : list conn)
  : list conn * list event * list conn :=
  match others with
  | [] =>
      let '(disconnected, evs) := write_loop frame (skipn i clients) in
      (disconnected, evs, clients)
  | during_drain :: others' =>
      match nth_error clients i with
      | None => ([], [], clients)
      | Some c =>
          let '(disconnected, evs, clients') :=
            write_loop_live frame others' (S i) (during_drain clients) in
          if write_ok c
          then (disconnected, write_event frame c :: evs, clients')
          else (c :: disconnected, write_event frame c :: evs, clients')
      end
  end.

(** The second loop, over [disconnected_clients]; it has no [await]. *)
Fixpoint remove_loop (disconnected : list conn) (clients : list conn)
  : list conn * list event :=
  match disconnected with
  | [] => (clients, [])
  | c :: rest =>
      if mem c clients
      then let '(clients', evs) := remove_loop rest (remove c clients) in
           (clients', Removed c :: evs)
      else remove_loop rest clients
  end.

(** [send_to_all_clients]: the registry after the call and the events of the
    call. The encoding of the message and of its length are outside any
    [try]: their exceptions go to the caller, before any write. *)
Definition send_to_all_clients (others : list (list conn -> list conn))
  (message : string) (clients : list conn)
  : result (list conn * list event) :=
  match clients with
  | [] => Ok (clients, [])
  | _ :: _ =>
      message_bytes <- utf8_encode message ;;
      frame <- Frame.encode message_bytes ;;
      let '(disconnected_clients, evs1, clients1) :=
        write_loop_live frame others 0 clients in
      let '(clients', evs2) := remove_loop disconnected_clients clients1 in
      Ok (clients', evs1 ++ evs2)
  end.

End WithEnv.


(** The connection an event is about. *)
Definition target (e : event) : conn :=
  match e with
  | Wrote c _ | WriteFailed c | Removed c => c
  end.

(** The connections a call wrote to with success, in order. *)
Fixpoint receivers (evs : list event) : list conn :=
  match evs with
  | [] => []
  | Wrote c _ :: evs' => c :: receivers evs'
  | _ :: evs' => receivers evs'
  end.


End Registry.

(* ================================================================= *)
(** ** Connection supervisor: [AsyncClient.connect_to_server] *)

Module Supervisor.

Record AsyncClient : Type := mkAsyncClient {
  connected : bool;
  writer : option nat
}.

(** [AsyncClient.__init__]. *)
Definition init : AsyncClient := {| connected := false; writer := None |}.

(** How [writer.write(...)] followed by [await writer.drain()] ends. *)
Inductive write_outcome : Type :=
| Written
| WriteRaised
| DrainRaised.

Section WithCodec.

(** [message.encode('utf-8')] and [message_data.decode('utf-8')], the
    built-in codec. *)
Variable utf8_encode : string -> result Frame.bytes.
Variable utf8_decode : Frame.bytes -> result string.

(** [AsyncClient.send_message]: the value returned, the client after the
    call, and the frame handed to [writer.write], if any. *)
Definition send_message (self : AsyncClient) (message : string)
  (outcome : write_outcome) : bool * AsyncClient * option Frame.bytes :=
  if negb (connected self) || match writer self with Some _ => false | None => true end
  then (false, self, None)
  else
    let failed := {| connected := false; writer := writer self |} in
    match (message_bytes <- utf8_encode message ;; Frame.encode message_bytes) with
    | Raise _ => (false, failed, None)
    | Ok frame =>
        match outcome with
        | Written => (true, self, Some frame)
        | WriteRaised => (false, failed, None)
        | DrainRaised => (false, failed, Some frame)
        end
    end.

(** The reads of one turn of the read loop, on a stream whose remaining
    content is [buf]: the message handed to [handle_server_message] and the
    rest of the stream. *)
Definition receive (buf : Frame.bytes) : result (string * Frame.bytes) :=
  '(message_data, rest) <- Frame.decode buf ;;
  message <- utf8_decode message_data ;;
  Ok (message, rest).

End WithCodec.

(** [AsyncClient.disconnect]. *)
Definition disconnect (self : AsyncClient) : AsyncClient :=
  {| connected := false; writer := writer self |}.

(** How one turn of the read loop ends. *)
Inductive read : Type :=
| Message (send_failed : bool)
    (** a frame was read and handled; [send_failed]: while handling it,
        [send_message] caught an exception and cleared [connected] *)
| IncompleteRead
    (** [asyncio.IncompleteReadError]: the server closed the stream *)
| ReadException.
    (** any other exception of the reads or of the UTF-8 decoding *)

(** What the environment does to one attempt to connect. *)
Inductive attempt : Type :=
| Refused
    (** [asyncio.open_connection] raises, and the [except] block runs to
        its end *)
| Accepted (w : nat) (reads : list read)
    (** it returns the stream with writer [w], on which the turns of the
        read loop end as [reads] say *)
| RefusedCloseRaises.
    (** [asyncio.open_connection] raises and, in the [except] block,
        [await self.writer.wait_closed()] raises in its turn, as it does
        when the connection of that writer was lost with an error (a
        reset): nothing catches it *)

Inductive action : Type :=
| OpenConnection
| Dispatch
| CloseWriter (w : nat)
| Sleep (seconds : Z)
| LoopLeft.
    (** an exception leaves [connect_to_server] *)

Definition action_eq_dec (a b : action) : {a = b} + {a <> b}.
Proof. decide equality; try apply Z.eq_dec; apply Nat.eq_dec. Defined.

(** [while self.connected:] and its body. The loop is left by a [break] or
    when the condition fails; nothing else is done on the way out. *)
Fixpoint read_loop (reads : list read) (self : AsyncClient)
  : AsyncClient * list action :=
  if connected self then
    match reads with
    | [] => (self, [])
    | Message send_failed :: reads' =>
        let self' := {| connected := if send_failed then false else connected self;
                        writer := writer self |} in
        let '(self'', acts) := read_loop reads' self' in
        (self'', Dispatch :: acts)
    | IncompleteRead :: _ => (self, [])
    | ReadException :: _ => (self, [])
    end
  else (self, []).

(** One turn of [while True:]. *)
Definition connect_once (a : attempt) (self : AsyncClient)
  : AsyncClient * list action :=
  match a with
  | Accepted w reads =>
      let self' := {| connected := true; writer := Some w |} in
      let '(self'', acts) := read_loop reads self' in
      (self'', OpenConnection :: acts)
  | Refused =>
      let self' := {| connected := false; writer := writer self |} in
      (self',
       OpenConnection ::
       match writer self with
       | Some w => [CloseWriter w]
       | None => []
       end ++ [Sleep 5])
  | RefusedCloseRaises =>
      let self' := {| connected := false; writer := writer self |} in
      (self',
       OpenConnection ::
       match writer self with
       | Some w => [CloseWriter w; LoopLeft]
       | None => [Sleep 5]
       end)
  end.

(** The turn ends [connect_to_server]: [wait_closed()] is called, on the
    writer in place, and raises. *)
Definition leaves (a : attempt) (self : AsyncClient) : bool :=
  match a with
  | RefusedCloseRaises =>
      match writer self with
      | Some _ => true
      | None => false
      end
  | _ => false
  end.

(** [connect_to_server], for as long as the environment is described, or
    until an exception leaves it. *)
Fixpoint connect_to_server (attempts : list attempt) (self : AsyncClient)
  : AsyncClient * list action :=
  match attempts with
  | [] => (self, [])
  | a :: rest =>
      let '(self', acts) := connect_once a self in
      if leaves a self then (self', acts)
      else
        let '(self'', acts') := connect_to_server rest self' in
        (self'', acts ++ acts')
  end.

End Supervisor.

(* ================================================================= *)
(** ** The scenarios of the spec, as concrete inputs *)

Module Scenario.

Local Open Scope string_scope.

(** The command that [send_key_command("F1")] builds. *)
Definition f1_command : pyval :=
  PDict [("command", PStr "execute");
         ("window", PStr "window1");
         ("action", PStr "f1_action")].

Definition f2_command : pyval :=
  PDict [("command", PStr "execute");
         ("window", PStr "window2");
         ("action", PStr "f2_action")].

(** A command whose window is a list. *)
Definition list_command : pyval :=
  PDict [("command", PStr "execute"); ("window", PList [PInt 1])].

(** A stand-in for [json.loads] on four messages, named by a label: the two
    commands above, a command with a list as window, a status message, and
    text that is not JSON. *)
Definition loads (message : string) : result pyval :=
  if String.eqb message "F1" then Ok f1_command
  else if String.eqb message "F2" then Ok f2_command
  else if String.eqb message "LIST" then Ok list_command
  else if String.eqb message "STATUS" then Ok (PDict [("command", PStr "status")])
  else Raise JSONDecodeError.

(** [default_windows] and [default_actions] of [ConfigManager]; the values,
    which the core does not read, are left empty. *)
Definition cfg : Action.Config :=
  {| Action.active_windows :=
       [("window1", PDict []); ("window2", PDict []); ("window3", PDict []);
        ("window4", PDict []); ("window5", PDict [])];
     Action.actions_config :=
       [("idle_action", PDict []); ("f1_action", PDict []); ("f2_action", PDict []);
        ("f3_action", PDict []); ("f4_action", PDict []); ("f5_action", PDict [])] |}.

(** The UTF-8 codec on ASCII text, where a character is its own byte. *)
Definition ascii_encode (message : string) : result Frame.bytes :=
  Ok (list_byte_of_string message).

Definition ascii_decode (message_data : Frame.bytes) : result string :=
  Ok (string_of_list_byte message_data).

(** An environment in which the input injection works, and one in which the
    key presses fail. *)
Definition env_ok : Action.Env :=
  {| Action.mouse_ok := fun _ => true; Action.keys_ok := fun _ _ => true |}.

Definition env_keys_fail : Action.Env :=
  {| Action.mouse_ok := fun _ => true; Action.keys_ok := fun _ _ => false |}.

(** The epoch reading taken as [t0] in the examples. *)
Definition t0 : Q := 1700000000.

(** A fresh client, and one whose state was set Active(window1) at [t0]. *)
Definition fresh : Router.world :=
  {| Router.state_manager := State.init; Router.sent := [] |}.

Definition active1 : Router.world :=
  {| Router.state_manager :=
       set_active_window str_on_strings State.init (PStr "window1") t0;
     Router.sent := [] |}.

End Scenario.

(* ================================================================= *)
(** ** Server side: [WowSyncServer.handle_client] and [send_key_command] *)

Module Server.

Import Registry.

Section WithCodec.

(** [message_data.decode('utf-8')], the built-in codec. *)
Variable utf8_decode : Frame.bytes -> result string.

(** The loop [while True:] of [handle_client], on a stream whose remaining
    content is [buf], after which the peer has closed: the messages logged
    and the exception that ends the loop. The loop has no other way out:
    [readexactly(4)] returns four bytes or raises, so [if not length_data:
    break] is not taken. [fuel] bounds the number of turns; [None]: the
    bound was reached. *)
Fixpoint read_loop (fuel : nat) (buf : Frame.bytes)
  : option (list string * exn) :=
  match fuel with
  | O => None
  | S fuel' =>
      match Supervisor.receive utf8_decode buf with
      | Raise e => Some ([], e)
      | Ok (message, rest) =>
          match read_loop fuel' rest with
          | Some (messages, e) => Some (message :: messages, e)
          | None => None
          end
      end
  end.

(** [handle_client] for the connection [c]: the messages logged, the
    exception caught, and the registry after the [finally] block. [during]
    is what the other tasks do to the registry while this one reads. Every
    turn of the loop takes at least the four bytes of a length, so the loop
    ends within [length buf + 1] turns. *)
Definition handle_client (c : conn) (buf : Frame.bytes)
  (during : list conn -> list conn) (clients : list conn)
  : option (list string * exn * list conn) :=
  let clients1 := register c clients in
  match read_loop (S (List.length buf)) buf with
  | Some (messages, e) => Some (messages, e, unregister c (during clients1))
  | None => None
  end.

End WithCodec.

(** What a peer writes that frames [messages] one after the other, as
    [send_message] does: the content of the stream. *)
Fixpoint stream_of (utf8_encode : string -> result Frame.bytes)
  (messages : list string) : result Frame.bytes :=
  match messages with
  | [] => Ok []
  | message :: rest =>
      message_bytes <- utf8_encode message ;;
      frame <- Frame.encode message_bytes ;;
      tail <- stream_of utf8_encode rest ;;
      Ok (frame ++ tail)
  end.

Section WithBuiltins.

(** [str.upper], [str.lower], [json.dumps] and [str.encode('utf-8')]. *)
Variable upper : string -> string.
Variable lower : string -> string.
Variable json_dumps : pyval -> string.
Variable utf8_encode : string -> result Frame.bytes.
Variable write_ok : conn -> bool.

(** The command that [send_key_command] builds for [key] bound to
    [window]. *)
Definition key_command (key : string) (window : pyval) : pyval :=
  PDict [("command", PStr "execute");
         ("window", window);
         ("action", PStr (lower key ++ "_action"))]%string.

(** [send_key_command]: nothing is sent for a key that is not in
    [self.keybinds]. *)
Definition send_key_command (others : list (list conn -> list conn))
  (keybinds : list (string * pyval)) (key : string)
  (clients : list conn) : result (list conn * list event) :=
  let key_upper := upper key in
  match lookup key_upper keybinds with
  | None => Ok (clients, [])
  | Some window =>
      send_to_all_clients utf8_encode write_ok others
        (json_dumps (key_command key window)) clients
  end.

End WithBuiltins.

End Server.

(* ================================================================= *)
(** ** Window table: [WindowManager._setup_windows] *)

Module Setup.

Local Open Scope string_scope.

(** How the construction of the table can fail. *)
Inductive failure : Type :=
| KeyError (key : string)
    (** [window_config[key]] on a dict without [key] *)
| NotSubscriptable
    (** [window_config[key]] on a value that is not a dict: a [TypeError] *)
| NoItems.
    (** [self.windows_config.items()] on a value that is not a dict: an
        [AttributeError] *)

Inductive outcome (A : Type) : Type :=
| Built (a : A)
| Failed (f : failure).

Arguments Built {A} a.
Arguments Failed {A} f.

(** [v[key]] for a string [key]. *)
Definition subscript (v : pyval) (key : string) : outcome pyval :=
  match v with
  | PDict d =>
      match lookup key d with
      | Some x => Built x
      | None => Failed (KeyError key)
      end
  | _ => Failed NotSubscriptable
  end.

(** [d[key] = v]: the value of an existing key is replaced where it is, a
    new key goes to the end. *)
Fixpoint dict_set (d : list (string * pyval)) (key : string) (v : pyval)
  : list (string * pyval) :=
  match d with
  | [] => [(key, v)]
  | (k, x) :: d' =>
      if String.eqb key k then (k, v) :: d' else (k, x) :: dict_set d' key v
  end.

(** The entry built for one window: the three subscripts are evaluated in
    the order of the dict display. *)
Definition entry (window_config : pyval) : outcome pyval :=
  match subscript window_config "title" with
  | Failed f => Failed f
  | Built title =>
      match subscript window_config "x" with
      | Failed f => Failed f
      | Built x =>
          match subscript window_config "y" with
          | Failed f => Failed f
          | Built y =>
              Built (PDict [("title", title); ("click_x", x); ("click_y", y)])
          end
      end
  end.

(** The loop of [_setup_windows] over the items that remain, from the
    table built so far. *)
Fixpoint setup_loop (items : list (string * pyval))
  (active_windows : list (string * pyval))
  : outcome (list (string * pyval)) :=
  match items with
  | [] => Built active_windows
  | (window_key, window_config) :: rest =>
      match entry window_config with
      | Failed f => Failed f
      | Built e => setup_loop rest (dict_set active_windows window_key e)
      end
  end.

(** [WindowManager.__init__] up to the log line: [self.active_windows]
    after [_setup_windows], from the value that [load_windows] returned. *)
Definition setup_windows (windows_config : pyval)
  : outcome (list (string * pyval)) :=
  match windows_config with
  | PDict d => setup_loop d []
  | _ => Failed NoItems
  end.


End Setup.

(* ================================================================= *)
(** ** Readings of the traces *)

Module Traces.

(** The attempts to connect that the environment refuses. *)
Fixpoint refusals (attempts : list Supervisor.attempt) : nat :=
  match attempts with
  | [] => 0
  | Supervisor.Accepted _ _ :: rest => refusals rest
  | _ :: rest => S (refusals rest)
  end.

(** Those among them after which [wait_closed()] would raise. *)
Fixpoint close_failures (attempts : list Supervisor.attempt) : nat :=
  match attempts with
  | [] => 0
  | Supervisor.RefusedCloseRaises :: rest => S (close_failures rest)
  | _ :: rest => close_failures rest
  end.

(** The durations of the sleeps of a trace of the supervisor, in order. *)
Fixpoint sleeps (acts : list Supervisor.action) : list Z :=
  match acts with
  | [] => []
  | Supervisor.Sleep seconds :: rest => seconds :: sleeps rest
  | _ :: rest => sleeps rest
  end.

(** The writers closed in a trace of the supervisor, in order. *)
Fixpoint closed (acts : list Supervisor.action) : list nat :=
  match acts with
  | [] => []
  | Supervisor.CloseWriter w :: rest => w :: closed rest
  | _ :: rest => closed rest
  end.

End Traces.

(* ================================================================= *)
(** ** More concrete inputs *)

Module Demo.

Local Open Scope string_scope.

(** [str.upper] and [str.lower] on the two keys of the examples. *)
Definition upper (key : string) : string :=
  if String.eqb key "f1" then "F1"
  else if String.eqb key "f2" then "F2"
  else key.

Definition lower (key : string) : string :=
  if String.eqb key "F1" then "f1"
  else if String.eqb key "F2" then "f2"
  else key.

(** A stand-in for [json.dumps] that names the commands of the examples by
    the labels that [Scenario.loads] reads. *)
Definition dumps (v : pyval) : string :=
  match v with
  | PDict [(_, PStr _); (_, PStr w); (_, PStr _)] =>
      if String.eqb w "window1" then "F1"
      else if String.eqb w "window2" then "F2"
      else "STATUS"
  | _ => "STATUS"
  end.

(** The state machine set Active(window1) at [Scenario.t0]. *)
Definition state_manager_of_active1 : StateManager :=
  Router.state_manager Scenario.active1.

(** The keybinds of the default [server.json]. *)
Definition keybinds : list (string * pyval) :=
  [("F1", PStr "window1"); ("F2", PStr "window2"); ("F3", PStr "window3");
   ("F4", PStr "window4"); ("F5", PStr "window5")].

(** [default_windows] of [ConfigManager], in full. *)
Definition default_windows : pyval :=
  PDict [("window1", PDict [("x", PInt 100); ("y", PInt 100);
                            ("title", PStr "World of Warcraft")]);
         ("window2", PDict [("x", PInt 200); ("y", PInt 150);
                            ("title", PStr "World of Warcraft")]);
         ("window3", PDict [("x", PInt 300); ("y", PInt 200);
                            ("title", PStr "World of Warcraft")]);
         ("window4", PDict [("x", PInt 400); ("y", PInt 250);
                            ("title", PStr "World of Warcraft")]);
         ("window5", PDict [("x", PInt 500); ("y", PInt 300);
                            ("title", PStr "World of Warcraft")])].

End Demo.

(* ================================================================= *)
(** * Properties *)

(* ================================================================= *)
(** ** Frame codec *)

Section FrameFacts.

Import Frame.
Local Open Scope Z_scope.

Lemma Z_of_byte_range (b : byte) : 0 <= Z_of_byte b < 256.
Proof.
  unfold Z_of_byte. pose proof (Byte.to_N_bounded b) as H.
  lia.
Qed.

Lemma Z_of_byte_of_Z (z : Z) : Z_of_byte (byte_of_Z z) = z mod 256.
Proof.
  unfold byte_of_Z, Z_of_byte.
  assert (Hr : 0 <= z mod 256 < 256) by (apply Z.mod_pos_bound; lia).
  destruct (Byte.of_N (Z.to_N (z mod 256))) as [b|] eqn:E.
  - apply Byte.to_of_N in E. rewrite E. lia.
  - apply Byte.of_N_None_iff in E. lia.
Qed.

Lemma digits_le_length (k : nat) (n : Z) : List.length (digits_le k n) = k.
Proof.
  revert n. induction k as [|k IH]; intros n; simpl; [reflexivity|].
  now rewrite IH.
Qed.

Lemma from_bytes_snoc (bs : bytes) (b : byte) :
  from_bytes (bs ++ [b]) = from_bytes bs * 256 + Z_of_byte b.
Proof.
  unfold from_bytes. now rewrite fold_left_app.
Qed.

Lemma from_bytes_digits (k : nat) (n : Z) :
  from_bytes (rev (digits_le k n)) = n mod 256 ^ Z.of_nat k.
Proof.
  revert n. induction k as [|k IH]; intros n.
  - simpl. now rewrite Z.mod_1_r.
  - cbn [digits_le rev]. rewrite from_bytes_snoc, IH, Z_of_byte_of_Z.
    rewrite Nat2Z.inj_succ, Z.pow_succ_r by lia.
    rewrite Z.mod_mod by lia.
    rewrite (Z.rem_mul_r n 256 (256 ^ Z.of_nat k)) by lia.
    lia.
Qed.

Lemma to_bytes_ok (n : Z) (k : nat) :
  0 <= n < 256 ^ Z.of_nat k -> to_bytes n k = Ok (rev (digits_le k n)).
Proof.
  intros H. unfold to_bytes.
  destruct (n <? 0) eqn:E1; [apply Z.ltb_lt in E1; lia|].
  destruct (256 ^ Z.of_nat k <=? n) eqn:E2; [apply Z.leb_le in E2; lia|].
  reflexivity.
Qed.

Lemma to_bytes_overflow (n : Z) (k : nat) :
  256 ^ Z.of_nat k <= n -> to_bytes n k = Raise OverflowError.
Proof.
  intros H. unfold to_bytes.
  apply Z.leb_le in H. rewrite H. now rewrite orb_true_r.
Qed.

Lemma from_to_bytes (n : Z) (k : nat) (bs : bytes) :
  to_bytes n k = Ok bs -> from_bytes bs = n /\ List.length bs = k.
Proof.
  unfold to_bytes.
  destruct (n <? 0) eqn:E1; [discriminate|].
  destruct (256 ^ Z.of_nat k <=? n) eqn:E2; [discriminate|].
  cbn [orb]. intros [= <-].
  apply Z.ltb_ge in E1. apply Z.leb_gt in E2.
  rewrite from_bytes_digits, length_rev, digits_le_length.
  split; [apply Z.mod_small; lia | reflexivity].
Qed.

Lemma readexactly_app (a b : bytes) :
  readexactly (len a) (a ++ b) = Ok (a, b).
Proof.
  unfold readexactly, len.
  destruct (Z.of_nat (List.length a) <? 0) eqn:E0; [apply Z.ltb_lt in E0; lia|].
  rewrite length_app, Nat2Z.id.
  destruct (Z.of_nat (List.length a + List.length b) <? Z.of_nat (List.length a)) eqn:E.
  - apply Z.ltb_lt in E. lia.
  - rewrite firstn_app, skipn_app, Nat.sub_diag, firstn_all, skipn_all.
    cbn. now rewrite app_nil_r.
Qed.

Lemma decode_frame (length_bytes message_bytes rest : bytes) :
  List.length length_bytes = 4%nat ->
  from_bytes length_bytes = len message_bytes ->
  decode ((length_bytes ++ message_bytes) ++ rest) = Ok (message_bytes, rest).
Proof.
  intros H4 Hn. unfold decode.
  rewrite <- app_assoc.
  replace 4 with (len length_bytes) by (unfold len; rewrite H4; reflexivity).
  rewrite readexactly_app. cbn [bind].
  rewrite Hn, readexactly_app. reflexivity.
Qed.

Lemma encode_ok (P : bytes) :
  len P < 2 ^ 32 -> encode P = Ok (rev (digits_le 4 (len P)) ++ P).
Proof.
  intros H. unfold encode. rewrite to_bytes_ok; [reflexivity|].
  change (256 ^ Z.of_nat 4) with (2 ^ 32). unfold len in *. lia.
Qed.

(** C3. A payload of fewer than 2^32 bytes is encoded as the four bytes of
    its length, most significant first, followed by the payload itself, and
    decoding that frame, whatever follows it on the stream, gives back the
    payload and leaves what follows. *)
Theorem frame_round_trip (P : bytes) :
  len P < 2 ^ 32 ->
  exists length_bytes,
    encode P = Ok (length_bytes ++ P) /\
    List.length length_bytes = 4%nat /\
    from_bytes length_bytes = len P /\
    (forall rest, decode ((length_bytes ++ P) ++ rest) = Ok (P, rest)) /\
    decode (length_bytes ++ P) = Ok (P, []).
Proof.
  intros Hlen.
  assert (Hr : 0 <= len P < 256 ^ Z.of_nat 4).
  { unfold len. change (256 ^ Z.of_nat 4) with (2 ^ 32). unfold len in Hlen. lia. }
  pose proof (to_bytes_ok _ _ Hr) as Hto.
  destruct (from_to_bytes _ _ _ Hto) as [Hfrom Hlen4].
  exists (rev (digits_le 4 (len P))).
  unfold encode. rewrite Hto. cbn [bind].
  repeat split; auto.
  - intros rest. now apply decode_frame.
  - rewrite <- (app_nil_r (_ ++ P)). now apply decode_frame.
Qed.

Lemma frame_round_trip_witness :
  len [x68; x69] < 2 ^ 32 /\
  exists length_bytes,
    encode [x68; x69] = Ok (length_bytes ++ [x68; x69]) /\
    List.length length_bytes = 4%nat /\
    from_bytes length_bytes = len [x68; x69] /\
    (forall rest,
       decode ((length_bytes ++ [x68; x69]) ++ rest) = Ok ([x68; x69], rest)) /\
    decode (length_bytes ++ [x68; x69]) = Ok ([x68; x69], []).
Proof.
  split; [reflexivity | apply (frame_round_trip [x68; x69]); reflexivity].
Defined.

(** The encoder refuses a payload of 2^32 bytes or more. *)
Lemma encode_overflow (P : bytes) :
  2 ^ 32 <= len P -> encode P = Raise OverflowError.
Proof.
  intros H. unfold encode. rewrite to_bytes_overflow; [reflexivity|].
  change (256 ^ Z.of_nat 4) with (2 ^ 32). exact H.
Qed.

(** A stream that ends inside a frame is a framing error. *)
Lemma decode_short (buf : bytes) :
  len buf < 4 -> decode buf = Raise IncompleteReadError.
Proof.
  intros H. unfold decode, readexactly. cbn [Z.ltb Z.compare].
  apply Z.ltb_lt in H. now rewrite H.
Qed.

Example encode_hi :
  encode [x68; x69] = Ok [x00; x00; x00; x02; x68; x69].
Proof. reflexivity. Qed.

Example decode_hi :
  decode [x00; x00; x00; x02; x68; x69; x00] = Ok ([x68; x69], [x00]).
Proof. reflexivity. Qed.

End FrameFacts.

(* ================================================================= *)
(** ** Action state machine *)

Section StateFacts.

Local Open Scope Q_scope.

Variable py_str : pyval -> string.

Lemma Qle_bool_false (x y : Q) : Qle_bool x y = false <-> y < x.
Proof.
  split; intros H.
  - apply Qnot_le_lt. intros Hle. apply Qle_bool_iff in Hle. congruence.
  - destruct (Qle_bool x y) eqn:E; [|reflexivity].
    apply Qle_bool_iff in E. apply Qlt_not_le in H. contradiction.
Qed.

Lemma is_idle_set_active_window (s : StateManager) (w : pyval) (t : Q) :
  is_idle (set_active_window py_str s w t) = false.
Proof. reflexivity. Qed.

Lemma is_idle_set_idle (s : StateManager) : is_idle (set_idle s) = true.
Proof. reflexivity. Qed.

(** The three numeric fields after a sequence of calls from any state. *)
Lemma fields_after_calls (calls : list call) (s : StateManager) :
  let s' := fold_left (apply_call py_str) calls s in
  last_action_time s' =
    match last_active calls with
    | Some t => t
    | None => last_action_time s
    end /\
  action_cooldown s' = action_cooldown s /\
  idle_timeout s' = idle_timeout s.
Proof.
  revert s. induction calls as [|c rest IH]; intros s; cbn [fold_left last_active].
  - repeat split.
  - destruct (IH (apply_call py_str s c)) as (Ht & Hc & Hi).
    cbn zeta in *. rewrite Ht, Hc, Hi.
    destruct (last_active rest); destruct c; repeat split.
Qed.

Lemma encodes_after_calls (calls : list call) (s : StateManager) (v : variant) :
  encodes py_str s v ->
  encodes py_str (fold_left (apply_call py_str) calls s)
    (fold_left variant_after calls v).
Proof.
  revert s v. induction calls as [|c rest IH]; intros s v H; cbn [fold_left].
  - exact H.
  - apply IH. destruct c; cbn; split; reflexivity.
Qed.

Lemma encodes_run (calls : list call) :
  encodes py_str (run py_str calls) (variant_of calls).
Proof.
  apply encodes_after_calls. split; reflexivity.
Qed.

Lemma is_idle_encodes (s : StateManager) (v : variant) :
  encodes py_str s v ->
  is_idle s = match v with Idle => true | Active _ => false end.
Proof.
  unfold is_idle. destruct v as [|w]; intros [H _]; rewrite H; reflexivity.
Qed.

(** An Active variant comes from a [set_active_window], so there is a last
    one. *)
Lemma active_has_last (calls : list call) (v : variant) (w : pyval) :
  fold_left variant_after calls v = Active w ->
  last_active calls <> None \/ (calls = [] /\ v = Active w) \/
  (last_active calls = None /\ v = Active w).
Proof.
  revert v. induction calls as [|c rest IH]; intros v H; cbn [fold_left] in H.
  - right. left. split; [reflexivity | exact H].
  - cbn [last_active]. destruct (IH _ H) as [Hs | [[-> Hv] | [Hn Hv]]].
    + left. destruct (last_active rest); [discriminate | contradiction].
    + cbn [last_active]. destruct c; [left; discriminate | discriminate].
    + rewrite Hn. destruct c; [left; discriminate | discriminate].
Qed.

Lemma variant_of_active_last (calls : list call) (w : pyval) :
  variant_of calls = Active w -> exists t, last_active calls = Some t.
Proof.
  intros H. destruct (active_has_last calls Idle w H) as [Hs | [[_ Hv] | [_ Hv]]];
    try discriminate.
  destruct (last_active calls) as [t|]; [now exists t | contradiction].
Qed.

End StateFacts.

Section StateClaims.

Local Open Scope Q_scope.

Lemma should_return_to_idle_spec (s : StateManager) (now : Q) :
  should_return_to_idle s now = true <->
  is_idle s = false /\ idle_timeout s <= now - last_action_time s.
Proof.
  unfold should_return_to_idle. destruct (is_idle s).
  - split; [discriminate | intros [H _]; discriminate].
  - rewrite Qle_bool_iff. tauto.
Qed.

(** C1. After any sequence of [set_active_window] / [set_idle] calls on a
    fresh state machine, [can_execute_action] is false exactly when the clock
    reads less than the 2 seconds of [action_cooldown] past the reading of
    the last [set_active_window], and true otherwise; with no
    [set_active_window] so far it is true, the clock being read as seconds
    since the epoch, hence at least 2. *)
Theorem cooldown_after_calls
  (py_str : pyval -> string) (calls : list call) (now : Q) :
  (last_active calls = None -> 2 <= now) ->
  (can_execute_action (run py_str calls) now = false <->
     exists t, last_active calls = Some t /\ now - t < 2) /\
  (can_execute_action (run py_str calls) now = true <->
     last_active calls = None \/
     exists t, last_active calls = Some t /\ 2 <= now - t).
Proof.
  intros Hclock.
  destruct (fields_after_calls py_str calls init) as (Ht & Hc & _).
  cbn zeta in Ht, Hc. unfold run, can_execute_action.
  rewrite Ht, Hc. change (action_cooldown init) with 2.
  destruct (last_active calls) as [t|].
  - rewrite Qle_bool_false, Qle_bool_iff. split; split.
    + intros H. now exists t.
    + intros (t' & [= <-] & H). exact H.
    + intros H. right. now exists t.
    + intros [H | (t' & [= <-] & H)]; [discriminate | exact H].
  - specialize (Hclock eq_refl). change (last_action_time init) with 0.
    assert (H2 : Qle_bool 2 (now - 0) = true) by (apply Qle_bool_iff; lra).
    rewrite H2. split; split.
    + discriminate.
    + intros (t & [=] & _).
    + intros _. now left.
    + reflexivity.
Qed.

Lemma cooldown_after_calls_witness :
  (last_active (@nil call) = None -> 2 <= 1700000000) /\
  (can_execute_action (run str_on_strings []) 1700000000 = false <->
     exists t, last_active (@nil call) = Some t /\ 1700000000 - t < 2) /\
  (can_execute_action (run str_on_strings []) 1700000000 = true <->
     last_active (@nil call) = None \/
     exists t, last_active (@nil call) = Some t /\ 2 <= 1700000000 - t).
Proof.
  assert (H : last_active (@nil call) = None -> 2 <= 1700000000).
  { intros _. unfold Qle. simpl. lia. }
  split; [exact H | exact (cooldown_after_calls str_on_strings [] 1700000000 H)].
Defined.

(** C2. After any sequence of calls, [should_return_to_idle] is true if and
    only if the machine is Active and the clock reads at least the 10 seconds
    of [idle_timeout] past the reading of the last [set_active_window];
    while the machine is Idle it is false, whatever the clock reads. *)
Theorem should_return_to_idle_iff
  (py_str : pyval -> string) (calls : list call) (now : Q) :
  (should_return_to_idle (run py_str calls) now = true <->
     exists w t, variant_of calls = Active w /\
                 last_active calls = Some t /\ 10 <= now - t) /\
  (variant_of calls = Idle ->
     should_return_to_idle (run py_str calls) now = false).
Proof.
  destruct (fields_after_calls py_str calls init) as (Ht & _ & Hi).
  cbn zeta in Ht, Hi. fold (run py_str calls) in Ht, Hi.
  pose proof (is_idle_encodes py_str _ _ (encodes_run py_str calls)) as Hidle.
  split.
  - rewrite should_return_to_idle_spec, Hidle, Hi, Ht.
    change (idle_timeout init) with 10.
    destruct (variant_of calls) as [|w] eqn:Ev.
    + split; [intros [H _]; discriminate | intros (w & t & H & _); discriminate].
    + destruct (variant_of_active_last calls w Ev) as [t Hl]. rewrite Hl.
      split.
      * intros [_ H]. now exists w, t.
      * intros (w' & t' & _ & [= <-] & H). now split.
  - intros Ev. unfold should_return_to_idle. rewrite Hidle, Ev. reflexivity.
Qed.

(** C9. [set_idle] changes [current_state] and [active_window] only:
    [last_action_time], [action_cooldown] and [idle_timeout] keep their
    values, so [can_execute_action] answers as before the call, and after a
    [set_active_window] at reading [t] followed by [set_idle] it still
    measures the cooldown from [t]. *)
Theorem set_idle_frame
  (py_str : pyval -> string) (s : StateManager) (w : pyval) (t now : Q) :
  current_state (set_idle s) = "idle"%string /\
  active_window (set_idle s) = PNone /\
  last_action_time (set_idle s) = last_action_time s /\
  action_cooldown (set_idle s) = action_cooldown s /\
  idle_timeout (set_idle s) = idle_timeout s /\
  can_execute_action (set_idle s) now = can_execute_action s now /\
  (can_execute_action (set_idle (set_active_window py_str s w t)) now = true <->
     action_cooldown s <= now - t).
Proof.
  repeat split; try reflexivity.
  - intros H. now apply Qle_bool_iff in H.
  - intros H. now apply Qle_bool_iff.
Qed.

Example cooldown_half_second_after_active :
  can_execute_action
    (run str_on_strings [SetActiveWindow (PStr "window1") 1700000000; SetIdle])
    (1700000000 + (1 # 2)) = false.
Proof. reflexivity. Qed.

Example cooldown_over_after_two_seconds :
  can_execute_action
    (run str_on_strings [SetActiveWindow (PStr "window1") 1700000000; SetIdle])
    (1700000000 + 2) = true.
Proof. reflexivity. Qed.

Example idle_return_after_ten_seconds :
  should_return_to_idle
    (run str_on_strings [SetActiveWindow (PStr "window2") 1700000000])
    (1700000000 + 10) = true /\
  should_return_to_idle
    (run str_on_strings [SetActiveWindow (PStr "window2") 1700000000; SetIdle])
    (1700000000 + 10) = false.
Proof. split; reflexivity. Qed.

End StateClaims.

(* ================================================================= *)
(** ** Action execution *)

Section ActionFacts.

Variable env : Action.Env.
Variable cfg : Action.Config.


Lemma contains_unhashable {A : Type} (d : list (string * A)) (key : pyval) :
  hashable key = false -> contains d key = Raise TypeError.
Proof.
  destruct key; cbn; intros H; try discriminate; reflexivity.
Qed.


(** With a window that has no hash, the membership test of [focus_window]
    raises, and [execute_action] with it. *)
Lemma execute_action_unhashable_window (window_key action_name : pyval) :
  hashable window_key = false ->
  Action.execute_action env cfg window_key action_name = Raise TypeError.
Proof.
  intros Hw. unfold Action.execute_action, Action.focus_window.
  now rewrite (contains_unhashable _ _ Hw).
Qed.

End ActionFacts.

(* ================================================================= *)
(** ** Command router *)

Section RouterFacts.

Import Router.

Variable json_loads : string -> result pyval.
Variable py_str : pyval -> string.
Variable env : Action.Env.
Variable cfg : Action.Config.

(** The handler on an execute command, by cases on the cooldown check and
    on the outcome of the action. *)
Lemma handle_execute (message : string) (data window action : pyval)
  (t_check t_set : Q) (w : world) :
  json_loads message = Ok data ->
  is_execute data window action ->
  handle_server_message json_loads py_str env cfg message t_check t_set w =
    if can_execute_action (state_manager w) t_check then
      let s' := set_active_window py_str (state_manager w) window t_set in
      match Action.execute_action env cfg window action with
      | Ok success =>
          {| state_manager := s';
             sent := sent w ++
                     [outcome_response success window action (get_current_state s')] |}
      | Raise _ => {| state_manager := s'; sent := sent w |}
      end
    else
      {| state_manager := state_manager w;
         sent := sent w ++ [cooldown_response window action] |}.
Proof.
  intros Hload (Hc & Hw & Ht & Ha).
  unfold handle_server_message, try_except, bindM, lift.
  rewrite Hload, Hc, Hw, Ha. cbn [eq_str String.eqb Ascii.eqb Bool.eqb andb].
  rewrite Ht. cbn [read_state].
  destruct (can_execute_action (state_manager w) t_check); cbn [negb].
  - cbn [update_state state_manager sent].
    destruct (Action.execute_action env cfg window action); reflexivity.
  - reflexivity.
Qed.

(** Every parsed message is an execute command or falls under one of the
    causes for which the handler does nothing. *)
Lemma execute_or_not (data : pyval) :
  (exists window action, is_execute data window action) \/
  (forall d, data <> PDict d) \/
  (exists command, get data "command" PNone = Ok command /\
                   command <> PStr "execute") \/
  (exists window, get data "window" PNone = Ok window /\ truthy window = false).
Proof.
  destruct data as [| | | | |l|d];
    try (right; left; intros d' H; discriminate).
  destruct (get (PDict d) "command" PNone) as [command|] eqn:Ec.
  2:{ cbn in Ec. destruct (lookup "command" d); discriminate. }
  destruct (get (PDict d) "window" PNone) as [window|] eqn:Ew.
  2:{ cbn in Ew. destruct (lookup "window" d); discriminate. }
  destruct (get (PDict d) "action" (PStr "f1_action")) as [action|] eqn:Ea.
  2:{ cbn in Ea. destruct (lookup "action" d); discriminate. }
  destruct (truthy window) eqn:Et.
  2:{ right. right. right. now exists window. }
  destruct (eq_str command "execute") eqn:Ee.
  - left. exists window, action. repeat split; auto.
    destruct command; cbn in Ee; try discriminate.
    apply String.eqb_eq in Ee. now subst.
  - right. right. left. exists command. split; [reflexivity|].
    intros ->. discriminate.
Qed.

End RouterFacts.

Section RouterClaims.

Import Router.
Local Open Scope Q_scope.

(** C4. An execute command that arrives while [can_execute_action] is false
    is answered with [{status: cooldown, window, action}], and the state
    machine is left as it was: state, active window and last-action time. *)
Theorem cooldown_reply_keeps_state
  (json_loads : string -> result pyval) (py_str : pyval -> string)
  (env : Action.Env) (cfg : Action.Config)
  (message : string) (data window action : pyval) (t_check t_set : Q) (w : world) :
  json_loads message = Ok data ->
  is_execute data window action ->
  can_execute_action (state_manager w) t_check = false ->
  let w' := handle_server_message json_loads py_str env cfg message t_check t_set w in
  sent w' =
    sent w ++ [PDict [("status", PStr "cooldown");
                      ("window", window);
                      ("action", action)]%string] /\
  state_manager w' = state_manager w.
Proof.
  intros Hload Hexec Hcool w'. subst w'.
  rewrite (handle_execute json_loads py_str env cfg message data window action
             t_check t_set w Hload Hexec), Hcool.
  split; reflexivity.
Qed.

Lemma cooldown_reply_keeps_state_witness :
  Scenario.loads "F1" = Ok Scenario.f1_command /\
  is_execute Scenario.f1_command (PStr "window1") (PStr "f1_action") /\
  can_execute_action (state_manager Scenario.active1)
    (Scenario.t0 + (1 # 2)) = false /\
  let w' := handle_server_message Scenario.loads str_on_strings
              Scenario.env_ok Scenario.cfg "F1"
              (Scenario.t0 + (1 # 2)) (Scenario.t0 + (1 # 2)) Scenario.active1 in
  sent w' =
    sent Scenario.active1 ++
    [PDict [("status", PStr "cooldown");
            ("window", PStr "window1");
            ("action", PStr "f1_action")]%string] /\
  state_manager w' = state_manager Scenario.active1.
Proof.
  assert (H1 : Scenario.loads "F1" = Ok Scenario.f1_command) by reflexivity.
  assert (H2 : is_execute Scenario.f1_command (PStr "window1") (PStr "f1_action"))
    by (repeat split).
  assert (H3 : can_execute_action (state_manager Scenario.active1)
                 (Scenario.t0 + (1 # 2)) = false) by reflexivity.
  split; [exact H1 | split; [exact H2 | split; [exact H3 |]]].
  exact (cooldown_reply_keeps_state Scenario.loads str_on_strings
           Scenario.env_ok Scenario.cfg "F1" Scenario.f1_command
           (PStr "window1") (PStr "f1_action")
           (Scenario.t0 + (1 # 2)) (Scenario.t0 + (1 # 2)) Scenario.active1
           H1 H2 H3).
Defined.

(** Whatever becomes of the action, once the cooldown check has passed the
    transition is made and stays: also when the action fails, and when
    [execute_action] raises. *)
Lemma transition_recorded
  (json_loads : string -> result pyval) (py_str : pyval -> string)
  (env : Action.Env) (cfg : Action.Config)
  (message : string) (data window action : pyval) (t_check t_set : Q) (w : world) :
  json_loads message = Ok data ->
  is_execute data window action ->
  can_execute_action (state_manager w) t_check = true ->
  state_manager
    (handle_server_message json_loads py_str env cfg message t_check t_set w) =
  set_active_window py_str (state_manager w) window t_set.
Proof.
  intros Hload Hexec Hcan.
  rewrite (handle_execute json_loads py_str env cfg message data window action
             t_check t_set w Hload Hexec), Hcan.
  cbn zeta. destruct (Action.execute_action env cfg window action); reflexivity.
Qed.




(** X28. With a window that has no hash (a list or an object) the
    transition is made and nothing is sent: the [TypeError] of the
    membership test ends the handler. *)
Lemma unhashable_window_no_reply
  (json_loads : string -> result pyval) (py_str : pyval -> string)
  (env : Action.Env) (cfg : Action.Config)
  (message : string) (data window action : pyval) (t_check t_set : Q) (w : world) :
  json_loads message = Ok data ->
  is_execute data window action ->
  can_execute_action (state_manager w) t_check = true ->
  hashable window = false ->
  handle_server_message json_loads py_str env cfg message t_check t_set w =
  {| state_manager := set_active_window py_str (state_manager w) window t_set;
     sent := sent w |}.
Proof.
  intros Hload Hexec Hcan Hw.
  rewrite (handle_execute json_loads py_str env cfg message data window action
             t_check t_set w Hload Hexec), Hcan.
  now rewrite (execute_action_unhashable_window env cfg window action Hw).
Qed.

(** C10. A message that is not an execute command, because it does not
    parse, or parses to something that is not an object, or has a command
    other than ['execute'], or has a window that is missing or empty, gets
    no response and leaves the state machine as it was. *)
Theorem not_execute_ignored
  (json_loads : string -> result pyval) (py_str : pyval -> string)
  (env : Action.Env) (cfg : Action.Config)
  (message : string) (t_check t_set : Q) (w : world) :
  (exists e, json_loads message = Raise e) \/
  (exists data, json_loads message = Ok data /\ forall d, data <> PDict d) \/
  (exists data command,
     json_loads message = Ok data /\
     get data "command" PNone = Ok command /\ command <> PStr "execute") \/
  (exists data window,
     json_loads message = Ok data /\
     get data "window" PNone = Ok window /\ truthy window = false) ->
  let w' := handle_server_message json_loads py_str env cfg message t_check t_set w in
  sent w' = sent w /\ state_manager w' = state_manager w.
Proof.
  intros H w'. subst w'.
  assert (Hw : handle_server_message json_loads py_str env cfg message
                 t_check t_set w = w); [|rewrite Hw; split; reflexivity].
  unfold handle_server_message, try_except, bindM, lift.
  destruct H as [[e ->] | [(data & -> & Hd) | [(data & c & -> & Hc & Hne)
                                             | (data & win & -> & Hwin & Ht)]]].
  - reflexivity.
  - destruct data; try reflexivity. now destruct (Hd d).
  - rewrite Hc.
    destruct (get data "window" PNone); [|reflexivity].
    destruct (get data "action" (PStr "f1_action")); [|reflexivity].
    assert (He : eq_str c "execute" = false).
    { destruct c; try reflexivity. cbn [eq_str].
      apply String.eqb_neq. intros ->. now apply Hne. }
    rewrite He. reflexivity.
  - destruct (get data "command" PNone); [|reflexivity].
    rewrite Hwin.
    destruct (get data "action" (PStr "f1_action")); [|reflexivity].
    rewrite Ht, andb_false_r. reflexivity.
Qed.

Lemma not_execute_ignored_witness :
  ((exists e, Scenario.loads "STATUS" = Raise e) \/
   (exists data, Scenario.loads "STATUS" = Ok data /\ forall d, data <> PDict d) \/
   (exists data command,
      Scenario.loads "STATUS" = Ok data /\
      get data "command" PNone = Ok command /\ command <> PStr "execute") \/
   (exists data window,
      Scenario.loads "STATUS" = Ok data /\
      get data "window" PNone = Ok window /\ truthy window = false)) /\
  let w' := handle_server_message Scenario.loads str_on_strings
              Scenario.env_ok Scenario.cfg "STATUS"
              Scenario.t0 Scenario.t0 Scenario.fresh in
  sent w' = sent Scenario.fresh /\ state_manager w' = state_manager Scenario.fresh.
Proof.
  assert (H : (exists e, Scenario.loads "STATUS" = Raise e) \/
   (exists data, Scenario.loads "STATUS" = Ok data /\ forall d, data <> PDict d) \/
   (exists data command,
      Scenario.loads "STATUS" = Ok data /\
      get data "command" PNone = Ok command /\ command <> PStr "execute") \/
   (exists data window,
      Scenario.loads "STATUS" = Ok data /\
      get data "window" PNone = Ok window /\ truthy window = false)).
  { right. right. left.
    exists (PDict [("command", PStr "status")]%string), (PStr "status").
    split; [reflexivity | split; [reflexivity | discriminate]]. }
  split; [exact H|].
  exact (not_execute_ignored Scenario.loads str_on_strings Scenario.env_ok
           Scenario.cfg "STATUS" Scenario.t0 Scenario.t0 Scenario.fresh H).
Defined.

(** The scenarios of the spec, run. *)
Example scenario_cooldown_hit :
  handle_server_message Scenario.loads str_on_strings Scenario.env_ok Scenario.cfg
    "F1" (Scenario.t0 + (1 # 2)) (Scenario.t0 + (1 # 2)) Scenario.active1 =
  {| state_manager := state_manager Scenario.active1;
     sent := [PDict [("status", PStr "cooldown");
                     ("window", PStr "window1");
                     ("action", PStr "f1_action")]%string] |}.
Proof. reflexivity. Qed.

Example scenario_fresh_command :
  let w' := handle_server_message Scenario.loads str_on_strings Scenario.env_ok
              Scenario.cfg "F2" Scenario.t0 Scenario.t0 Scenario.fresh in
  sent w' = [PDict [("status", PStr "success");
                    ("window", PStr "window2");
                    ("action", PStr "f2_action");
                    ("state", PStr "active_window2")]%string] /\
  current_state (state_manager w') = "active_window2"%string /\
  active_window (state_manager w') = PStr "window2" /\
  should_return_to_idle (state_manager w') (Scenario.t0 + 10) = true /\
  should_return_to_idle (state_manager w') (Scenario.t0 + 9) = false.
Proof. repeat split. Qed.

Example scenario_failed_action :
  let w' := handle_server_message Scenario.loads str_on_strings
              Scenario.env_keys_fail Scenario.cfg "F2"
              Scenario.t0 Scenario.t0 Scenario.fresh in
  sent w' = [PDict [("status", PStr "error");
                    ("window", PStr "window2");
                    ("action", PStr "f2_action");
                    ("state", PStr "active_window2")]%string] /\
  last_action_time (state_manager w') = Scenario.t0.
Proof. repeat split. Qed.

Example scenario_list_window :
  let w' := handle_server_message Scenario.loads str_on_strings Scenario.env_ok
              Scenario.cfg "LIST" Scenario.t0 Scenario.t0 Scenario.fresh in
  sent w' = [] /\
  active_window (state_manager w') = PList [PInt 1] /\
  last_action_time (state_manager w') = Scenario.t0.
Proof. repeat split. Qed.

Example scenario_not_json :
  handle_server_message Scenario.loads str_on_strings Scenario.env_ok Scenario.cfg
    "hello" Scenario.t0 Scenario.t0 Scenario.fresh = Scenario.fresh.
Proof. reflexivity. Qed.

End RouterClaims.

(* ================================================================= *)
(** ** Idle scheduler *)

Section IdleFacts.

Import IdleLoop.
Local Open Scope nat_scope.

Lemma map_nth_seq {A : Type} (d : A) (l : list A) :
  map (fun k => nth k l d) (seq 0 (List.length l)) = l.
Proof.
  induction l as [|a l IH]; [reflexivity|].
  cbn [List.length seq map nth]. f_equal.
  rewrite <- seq_shift, map_map. exact IH.
Qed.

(** The index after [k] advances from 0. *)
Lemma iter_advance (windows : list string) (k : nat) :
  Nat.iter k (advance windows) 0 = k mod List.length windows.
Proof.
  induction k as [|k IH].
  - cbn. now rewrite Nat.Div0.mod_0_l.
  - rewrite Nat.iter_succ, IH. unfold advance.
    rewrite Nat.Div0.add_mod_idemp_l. f_equal. lia.
Qed.

Lemma select_in_range (windows : list string) (k : nat) :
  k < List.length windows -> select windows k = nth k windows ""%string.
Proof.
  intros H. unfold select. now rewrite Nat.mod_small.
Qed.

Variable env : Action.Env.
Variable cfg : Action.Config.

Lemma visited_app (a b : list event) :
  visited (a ++ b) = visited a ++ visited b.
Proof.
  induction a as [|[| |] a IH]; cbn; rewrite ?IH; reflexivity.
Qed.

(** One turn of the loop, whatever the environment does: the index stays
    and no window is selected, or the window at the index is selected and
    the index advances by one. *)
Lemma iteration_index (t : turn) (sm : StateManager) (im : IdleManager) :
  let windows := Action.get_window_list cfg in
  let im' := snd (fst (iteration env cfg t sm im)) in
  let evs := snd (iteration env cfg t sm im) in
  is_running im' = is_running im /\
  ((current_window_index im' = current_window_index im /\ visited evs = []) \/
   (windows <> [] /\
    current_window_index im' = advance windows (current_window_index im) /\
    visited evs = [select windows (current_window_index im)])).
Proof.
  unfold iteration.
  destruct (should_return_to_idle sm (now t));
    [cbn [is_idle set_idle current_state String.eqb Ascii.eqb Bool.eqb]
    | destruct (is_idle sm); [|cbn; auto]];
    (destruct (Action.get_window_list cfg) as [|w0 ws] eqn:Ew; [cbn; auto|]);
    (destruct (Action.focus_window env cfg
                 (PStr (select (w0 :: ws) (current_window_index im))))
       as [[|]|e];
     [destruct (is_idle (during_delay t _)) | | ]);
    cbn; (split; [reflexivity|]); right; (split; [discriminate|]);
    split; reflexivity.
Qed.

(** Any run of the loop: the windows selected are those at the indices
    0, 1, 2, ... steps of [advance] from the first index, in order, and the
    index at the end is as many steps from the first. *)
Lemma iterations_cursor (ts : list turn) :
  forall (sm : StateManager) (im : IdleManager),
  let windows := Action.get_window_list cfg in
  let im' := snd (fst (iterations env cfg ts sm im)) in
  let evs := snd (iterations env cfg ts sm im) in
  current_window_index im' =
    Nat.iter (List.length (visited evs)) (advance windows)
      (current_window_index im) /\
  visited evs =
    map (fun k => select windows
                    (Nat.iter k (advance windows) (current_window_index im)))
        (seq 0 (List.length (visited evs))).
Proof.
  induction ts as [|t ts IH]; intros sm im; cbn zeta.
  - cbn. split; reflexivity.
  - cbn [iterations]. destruct (is_running im); [|cbn; split; reflexivity].
    pose proof (iteration_index t sm im) as Hit. cbn zeta in Hit.
    destruct (iteration env cfg t sm im) as [[sm1 im1] ev1].
    cbn [fst snd] in Hit. destruct Hit as [_ Hit].
    match goal with
    | |- context [iterations env cfg ts ?s ?i] =>
        specialize (IH s i); cbn zeta in IH;
        destruct (iterations env cfg ts s i) as [[sm2 im2] ev2]
    end.
    assert (Hsame : forall b : bool,
              current_window_index (if b then stop_idle_mode im1 else im1) =
              current_window_index im1) by (intros []; reflexivity).
    rewrite Hsame in IH.
    cbn [fst snd current_window_index] in *.
    destruct IH as [IHi IHv]. rewrite visited_app.
    destruct Hit as [[Hi Hv] | (_ & Hi & Hv)]; rewrite Hv, Hi in *.
    + cbn [app]. split; assumption.
    + cbn [app List.length seq map Nat.iter]. split.
      * rewrite IHi. now rewrite Nat.iter_succ_r.
      * f_equal. rewrite IHv at 1. rewrite <- seq_shift, map_map.
        apply map_ext. intros k. now rewrite Nat.iter_succ_r.
Qed.

(** A turn with the machine Idle, some window configured and no command
    arriving: one window is selected, the index advances by one, the machine
    stays as it is. *)
Lemma quiet_iteration (t : Q) (sm : StateManager) (im : IdleManager) :
  is_idle sm = true ->
  Action.get_window_list cfg <> [] ->
  exists evs,
    iteration env cfg (quiet t) sm im =
      (sm,
       {| is_running := is_running im;
          current_window_index :=
            advance (Action.get_window_list cfg) (current_window_index im) |},
       evs) /\
    visited evs =
      [select (Action.get_window_list cfg) (current_window_index im)].
Proof.
  intros Hidle Hne. unfold iteration.
  assert (Hr : should_return_to_idle sm (now (quiet t)) = false)
    by (unfold should_return_to_idle; now rewrite Hidle).
  rewrite Hr, Hidle.
  destruct (Action.get_window_list cfg) as [|w0 ws] eqn:Ew; [contradiction|].
  destruct (Action.focus_window env cfg
              (PStr (select (w0 :: ws) (current_window_index im))))
    as [[|]|e]; cbn [quiet during_delay during_action].
  - rewrite Hidle. eexists. split; reflexivity.
  - eexists. split; reflexivity.
  - eexists. split; reflexivity.
Qed.

(** As many quiet turns as one likes select as many windows. *)
Lemma quiet_iterations (times : list Q) (sm : StateManager) (im : IdleManager) :
  is_idle sm = true ->
  Action.get_window_list cfg <> [] ->
  is_running im = true ->
  exists evs im',
    iterations env cfg (map quiet times) sm im = (sm, im', evs) /\
    List.length (visited evs) = List.length times.
Proof.
  intros Hidle Hne. revert im.
  induction times as [|t times IH]; intros im Hrun.
  - exists [], im. split; reflexivity.
  - cbn [map iterations]. rewrite Hrun.
    destruct (quiet_iteration t sm im Hidle Hne) as (ev1 & -> & Hv1).
    cbn [quiet stop_requested during_sleep is_running current_window_index].
    rewrite Hrun.
    destruct (IH {| is_running := true;
                    current_window_index :=
                      advance (Action.get_window_list cfg)
                        (current_window_index im) |} eq_refl)
      as (ev2 & im2 & -> & Hlen).
    exists (ev1 ++ ev2), im2. split; [reflexivity|].
    rewrite visited_app, length_app, Hv1, Hlen. reflexivity.
Qed.

End IdleFacts.

Section IdleClaims.

Import IdleLoop.
Local Open Scope nat_scope.

(** C6. Over the N > 0 configured windows, from a fresh [IdleManager]
    (index 0): the index advances by one modulo N, after k < N advances it
    is k and after N it is 0 again. In any run of the idle loop, whatever
    commands arrive and whether the focus succeeds, the windows selected are
    those at positions 0, 1, 2, ... modulo N, in order, and the index is the
    number of selections modulo N: after exactly N selections the windows
    selected are the configured ones, each once, and the index is 0. N turns
    in which no command arrives make exactly N selections. *)
Theorem cursor_full_cycle
  (env : Action.Env) (cfg : Action.Config) (ts : list turn) (sm : StateManager) :
  Action.get_window_list cfg <> [] ->
  let windows := Action.get_window_list cfg in
  let N := List.length windows in
  let im' := snd (fst (start_idle_mode env cfg ts sm IdleLoop.init)) in
  let evs := snd (start_idle_mode env cfg ts sm IdleLoop.init) in
  let m := List.length (visited evs) in
  (forall i, advance windows i = (i + 1) mod N) /\
  (forall k, k < N -> Nat.iter k (advance windows) 0 = k) /\
  Nat.iter N (advance windows) 0 = 0 /\
  current_window_index im' = m mod N /\
  visited evs = map (fun k => nth (k mod N) windows ""%string) (seq 0 m) /\
  (m = N -> current_window_index im' = 0 /\ visited evs = windows) /\
  (forall times,
     List.length times = N ->
     List.length
       (visited (snd (start_idle_mode env cfg (map quiet times) sm IdleLoop.init)))
     = N).
Proof.
  intros Hne windows N im' evs m.
  assert (HN : N <> 0).
  { subst N windows. destruct (Action.get_window_list cfg); [contradiction | discriminate]. }
  assert (Hcur : current_window_index im' = m mod N /\
                 visited evs =
                   map (fun k => nth (k mod N) windows ""%string) (seq 0 m)).
  { subst im' evs m. unfold start_idle_mode.
    cbn [IdleLoop.init is_running current_window_index].
    pose proof (iterations_cursor env cfg ts (set_idle sm)
                  {| is_running := true; current_window_index := 0 |}) as H.
    cbn zeta in H. cbn [current_window_index] in H. fold windows in H.
    destruct H as [Hi Hv]. split.
    - rewrite Hi. apply iter_advance.
    - rewrite Hv at 1. apply map_ext. intros k.
      rewrite iter_advance. unfold select. fold N.
      now rewrite Nat.Div0.mod_mod. }
  destruct Hcur as [Hi Hv].
  split; [reflexivity|]. split; [|split; [|split; [|split; [|split]]]].
  - intros k Hk. rewrite iter_advance. now apply Nat.mod_small.
  - rewrite iter_advance. now apply Nat.Div0.mod_same.
  - exact Hi.
  - exact Hv.
  - intros Hm. split.
    + rewrite Hi, Hm. now apply Nat.Div0.mod_same.
    + rewrite Hv, Hm.
      transitivity (map (fun k => nth k windows ""%string) (seq 0 N));
        [|apply map_nth_seq].
      apply map_ext_in. intros k Hk. apply in_seq in Hk.
      now rewrite Nat.mod_small by lia.
  - intros times Hlen. unfold start_idle_mode.
    cbn [IdleLoop.init is_running current_window_index].
    destruct (quiet_iterations env cfg times (set_idle sm)
                {| is_running := true; current_window_index := 0 |}
                eq_refl Hne eq_refl) as (evs' & im'' & -> & Hl).
    cbn [snd]. now rewrite Hl.
Qed.

Lemma cursor_full_cycle_witness :
  Action.get_window_list Scenario.cfg <> [] /\
  let windows := Action.get_window_list Scenario.cfg in
  let N := List.length windows in
  let im' := snd (fst (start_idle_mode Scenario.env_ok Scenario.cfg
                         (map quiet [8; 16; 24; 32; 40]%Q) State.init
                         IdleLoop.init)) in
  let evs := snd (start_idle_mode Scenario.env_ok Scenario.cfg
                    (map quiet [8; 16; 24; 32; 40]%Q) State.init IdleLoop.init) in
  let m := List.length (visited evs) in
  (forall i, advance windows i = (i + 1) mod N) /\
  (forall k, k < N -> Nat.iter k (advance windows) 0 = k) /\
  Nat.iter N (advance windows) 0 = 0 /\
  current_window_index im' = m mod N /\
  visited evs = map (fun k => nth (k mod N) windows ""%string) (seq 0 m) /\
  (m = N -> current_window_index im' = 0 /\ visited evs = windows) /\
  (forall times,
     List.length times = N ->
     List.length
       (visited (snd (start_idle_mode Scenario.env_ok Scenario.cfg
                        (map quiet times) State.init IdleLoop.init)))
     = N).
Proof.
  assert (H : Action.get_window_list Scenario.cfg <> []) by discriminate.
  split; [exact H|].
  exact (cursor_full_cycle Scenario.env_ok Scenario.cfg
           (map quiet [8; 16; 24; 32; 40]%Q) State.init H).
Defined.

Example idle_cycle_visits_all :
  let '(_, im', evs) :=
    start_idle_mode Scenario.env_ok Scenario.cfg
      (map quiet [8; 16; 24; 32; 40]%Q) State.init IdleLoop.init in
  current_window_index im' = 0 /\
  visited evs = ["window1"; "window2"; "window3"; "window4"; "window5"]%string /\
  evs = [Focused "window1" true; IdleAction "window1";
         Focused "window2" true; IdleAction "window2";
         Focused "window3" true; IdleAction "window3";
         Focused "window4" true; IdleAction "window4";
         Focused "window5" true; IdleAction "window5"]%string.
Proof. repeat split. Qed.

(** A second call of [start_idle_mode] while the loop runs returns at once. *)
Example start_idle_mode_twice (sm : StateManager) (ts : list turn) :
  start_idle_mode Scenario.env_ok Scenario.cfg ts sm
    {| is_running := true; current_window_index := 3 |} =
  (sm, {| is_running := true; current_window_index := 3 |}, []).
Proof. reflexivity. Qed.

End IdleClaims.

(* ================================================================= *)
(** ** Client registry *)

Section RegistryFacts.

Import Registry.
Local Open Scope nat_scope.

Variable write_ok : conn -> bool.

Lemma write_loop_spec (frame : Frame.bytes) (clients : list conn) :
  write_loop write_ok frame clients =
    (filter (fun c => negb (write_ok c)) clients,
     map (write_event write_ok frame) clients).
Proof.
  induction clients as [|c rest IH]; [reflexivity|].
  cbn [write_loop filter map]. rewrite IH.
  destruct (write_ok c); reflexivity.
Qed.

(** When the other tasks leave the registry as it is, the live loop visits
    what remains of it from the index on. *)
Lemma write_loop_live_from (frame : Frame.bytes)
  (others : list (list conn -> list conn)) (clients : list conn) :
  Forall (fun during_drain => during_drain clients = clients) others ->
  forall i,
    write_loop_live write_ok frame others i clients =
      (fst (write_loop write_ok frame (skipn i clients)),
       snd (write_loop write_ok frame (skipn i clients)),
       clients).
Proof.
  induction 1 as [|during_drain others Hd _ IH]; intros i.
  - cbn [write_loop_live]. now destruct (write_loop write_ok frame (skipn i clients)).
  - cbn [write_loop_live]. rewrite Hd, (IH (S i)).
    destruct (nth_error clients i) as [c|] eqn:En.
    + assert (Hs : skipn i clients = c :: skipn (S i) clients).
      { clear -En. revert clients En.
        induction i as [|i IHi]; intros [|a l] En; try discriminate.
        - now injection En as ->.
        - cbn [skipn]. now apply IHi. }
      rewrite Hs. cbn [write_loop].
      destruct (write_loop write_ok frame (skipn (S i) clients)) as [d e].
      now destruct (write_ok c).
    + apply nth_error_None in En. now rewrite skipn_all2.
Qed.

(** The live loop then visits the registry as it was when the loop began. *)
Lemma write_loop_live_quiet (frame : Frame.bytes)
  (others : list (list conn -> list conn)) (clients : list conn) :
  Forall (fun during_drain => during_drain clients = clients) others ->
  write_loop_live write_ok frame others 0 clients =
    (filter (fun c => negb (write_ok c)) clients,
     map (write_event write_ok frame) clients,
     clients).
Proof.
  intros H. rewrite (write_loop_live_from frame others clients H 0).
  cbn [skipn]. now rewrite write_loop_spec.
Qed.

Lemma mem_In (c : conn) (clients : list conn) :
  mem c clients = true <-> In c clients.
Proof.
  unfold mem. rewrite existsb_exists. split.
  - intros (x & Hx & E). apply Nat.eqb_eq in E. now subst.
  - intros H. exists c. split; [exact H | apply Nat.eqb_refl].
Qed.





(** The connections that received a broadcast are those whose write
    succeeded. *)
Lemma receivers_writes (frame : Frame.bytes) (l : list conn) :
  receivers (map (write_event write_ok frame) l) = filter write_ok l.
Proof.
  induction l as [|a l IH]; [reflexivity|].
  cbn [map filter]. unfold write_event at 1.
  destruct (write_ok a); cbn [receivers]; now rewrite IH.
Qed.

Lemma receivers_all_ok (frame : Frame.bytes) (l : list conn) :
  (forall d, In d l -> write_ok d = true) ->
  write_loop write_ok frame l = ([], map (fun d => Wrote d frame) l).
Proof.
  induction l as [|a l IH]; intros H; [reflexivity|].
  cbn [write_loop map]. rewrite IH by (intros d Hd; apply H; now right).
  unfold write_event. rewrite (H a) by now left. reflexivity.
Qed.

End RegistryFacts.

Section RegistryClaims.

Import Registry.
Local Open Scope nat_scope.




Example broadcast_three_one_fails :
  send_to_all_clients Scenario.ascii_encode (fun x => negb (Nat.eqb x 2))
    [] "hi" [1; 2; 3] =
  Ok ([1; 3],
      [Wrote 1 [x00; x00; x00; x02; x68; x69];
       WriteFailed 2;
       Wrote 3 [x00; x00; x00; x02; x68; x69];
       Removed 2]).
Proof. reflexivity. Qed.

Example broadcast_no_clients :
  send_to_all_clients Scenario.ascii_encode (fun _ => true) [] "hi" [] = Ok ([], []).
Proof. reflexivity. Qed.

(** A new connection is not in the registry yet: registering it keeps the
    registry free of duplicates. *)
Lemma register_NoDup (c : conn) (clients : list conn) :
  NoDup clients -> ~ In c clients -> NoDup (register c clients).
Proof.
  intros Hnd Hc. unfold register.
  apply NoDup_app; [exact Hnd | repeat constructor; intros [] | ].
  intros x Hx [<- | []]. contradiction.
Qed.

(** The [finally] block of [handle_client] may run twice: the second time
    the connection is not in the registry any more and nothing changes. *)
Lemma unregister_twice (c : conn) (clients : list conn) :
  NoDup clients ->
  unregister c (unregister c clients) = unregister c clients.
Proof.
  intros Hnd. unfold unregister at 2 3.
  destruct (mem c clients) eqn:Em.
  - unfold unregister.
    assert (Hn : mem c (remove c clients) = false).
    { destruct (mem c (remove c clients)) eqn:E; [|reflexivity].
      apply mem_In in E. exfalso. clear Em.
      induction clients as [|a rest IH]; [contradiction|].
      cbn [remove] in E. inversion Hnd as [|? ? Hna Hnd']; subst.
      destruct (Nat.eqb c a) eqn:Eq.
      - apply Nat.eqb_eq in Eq. subst. contradiction.
      - destruct E as [E | E]; [subst; now rewrite Nat.eqb_refl in Eq | now apply IH]. }
    now rewrite Hn.
  - unfold unregister. now rewrite Em.
Qed.

End RegistryClaims.

(* ================================================================= *)
(** ** Connection supervisor *)

Section SupervisorFacts.

Import Supervisor.

(** The read loop while every frame is handled and answered. *)
Lemma read_loop_messages (n : nat) (rest : list read) (self : AsyncClient) :
  connected self = true ->
  read_loop (repeat (Message false) n ++ rest) self =
    (fst (read_loop rest self), repeat Dispatch n ++ snd (read_loop rest self)).
Proof.
  intros Hc. induction n as [|n IH].
  - cbn [repeat app]. now destruct (read_loop rest self).
  - cbn [repeat app read_loop]. rewrite Hc.
    replace {| connected := true; writer := writer self |} with self
      by (destruct self; cbn in Hc; now subst).
    rewrite IH. reflexivity.
Qed.

(** A refused connection: the flag is cleared, the writer of the previous
    connection, if any, is closed, and the supervisor sleeps 5 seconds. *)
Lemma refused_once (self : AsyncClient) :
  connect_once Refused self =
    ({| connected := false; writer := writer self |},
     OpenConnection ::
     match writer self with Some w => [CloseWriter w] | None => [] end ++
     [Sleep 5]).
Proof. reflexivity. Qed.

(** Any number of refusals in a row: the supervisor has opened as many
    connections and slept 5 seconds after each, and goes on. *)
Lemma refused_forever (n : nat) (self : AsyncClient) :
  let '(self', acts) := connect_to_server (repeat Refused n) self in
  writer self' = writer self /\
  count_occ action_eq_dec acts OpenConnection = n /\
  count_occ action_eq_dec acts (Sleep 5) = n.
Proof.
  revert self. induction n as [|n IH]; intros self.
  - cbn. repeat split.
  - cbn [repeat connect_to_server]. rewrite refused_once.
    specialize (IH {| connected := false; writer := writer self |}).
    destruct (connect_to_server (repeat Refused n)
                {| connected := false; writer := writer self |}) as [self' acts].
    destruct IH as (Hw & Ho & Hs). cbn [writer] in Hw.
    split; [exact Hw|].
    destruct (writer self); cbn [app count_occ];
      repeat (destruct (action_eq_dec _ _); try congruence); lia.
Qed.

Lemma read_loop_opens_nothing (reads : list read) (self : AsyncClient) :
  count_occ action_eq_dec (snd (read_loop reads self)) OpenConnection = 0%nat.
Proof.
  revert self. induction reads as [|r rs IH]; intros self; cbn [read_loop];
    destruct (connected self); try reflexivity.
  destruct r as [send_failed| |]; try reflexivity.
  specialize (IH {| connected := if send_failed then false else true;
                    writer := writer self |}).
  destruct (read_loop rs _) as [s1 a1].
  cbn [snd count_occ] in *.
  destruct (action_eq_dec Dispatch OpenConnection); [discriminate | exact IH].
Qed.

Lemma connect_once_opens_once (a : attempt) (self : AsyncClient) :
  count_occ action_eq_dec (snd (connect_once a self)) OpenConnection = 1%nat.
Proof.
  destruct a as [|w reads|]; cbn [connect_once].
  - destruct (writer self); cbn [snd app count_occ];
      repeat (destruct (action_eq_dec _ _); try congruence).
  - pose proof (read_loop_opens_nothing reads
                  {| connected := true; writer := Some w |}) as H.
    destruct (read_loop reads _) as [s acts].
    cbn [snd count_occ] in *.
    destruct (action_eq_dec OpenConnection OpenConnection); [|congruence].
    now rewrite H.
  - destruct (writer self); cbn [snd app count_occ];
      repeat (destruct (action_eq_dec _ _); try congruence).
Qed.

(** Only a turn on which [wait_closed()] raises ends the loop. *)
Lemma leaves_close_failure (a : attempt) (self : AsyncClient) :
  leaves a self = true -> a = RefusedCloseRaises /\ writer self <> None.
Proof.
  destruct a; cbn [leaves]; try discriminate.
  destruct (writer self); [split; [reflexivity | discriminate] | discriminate].
Qed.

(** X27. The supervisor opens one connection per turn of its loop, and
    never more than the environment describes. It leaves the loop only when
    [wait_closed()] raises in the [except] block: as long as that does not
    happen, every attempt is made, however many are refused, and no
    exception leaves [connect_to_server]. *)
Theorem every_attempt_made (attempts : list attempt) (self : AsyncClient) :
  (count_occ action_eq_dec (snd (connect_to_server attempts self)) OpenConnection <=
     List.length attempts)%nat /\
  (Traces.close_failures attempts = 0%nat ->
     count_occ action_eq_dec (snd (connect_to_server attempts self)) OpenConnection =
       List.length attempts /\
     count_occ action_eq_dec (snd (connect_to_server attempts self)) LoopLeft = 0%nat).
Proof.
  split.
  - revert self. induction attempts as [|a rest IH]; intros self; [apply Nat.le_refl|].
    cbn [connect_to_server].
    pose proof (connect_once_opens_once a self) as H1.
    destruct (connect_once a self) as [self' acts].
    specialize (IH self').
    destruct (connect_to_server rest self') as [self'' acts'].
    destruct (leaves a self); cbn [snd List.length] in *.
    + lia.
    + rewrite count_occ_app. lia.
  - revert self. induction attempts as [|a rest IH]; intros self Hz;
      [split; reflexivity|].
    cbn [connect_to_server].
    pose proof (connect_once_opens_once a self) as H1.
    assert (Hl : leaves a self = false /\
                 count_occ action_eq_dec (snd (connect_once a self)) LoopLeft = 0%nat /\
                 Traces.close_failures rest = 0%nat).
    { destruct a as [|w reads|]; cbn [Traces.close_failures] in Hz; [| |discriminate].
      - split; [reflexivity | split; [|exact Hz]].
        cbn [connect_once]. destruct (writer self); cbn [snd app count_occ];
          repeat (destruct (action_eq_dec _ _); try congruence).
      - split; [reflexivity | split; [|exact Hz]].
        cbn [connect_once].
        assert (Hr : forall rs s,
                  count_occ action_eq_dec (snd (read_loop rs s)) LoopLeft = 0%nat).
        { induction rs as [|r rs IHr]; intros s; cbn [read_loop];
            destruct (connected s); try reflexivity.
          destruct r as [send_failed| |]; try reflexivity.
          specialize (IHr {| connected := if send_failed then false else true;
                             writer := writer s |}).
          destruct (read_loop rs _) as [s1 a1]. cbn [snd count_occ] in *.
          destruct (action_eq_dec Dispatch LoopLeft); [discriminate | exact IHr]. }
        specialize (Hr reads {| connected := true; writer := Some w |}).
        destruct (read_loop reads _) as [s1 a1]. cbn [snd count_occ] in *.
        destruct (action_eq_dec OpenConnection LoopLeft); [discriminate | exact Hr]. }
    destruct Hl as (Hl & Hn & Hz').
    destruct (connect_once a self) as [self' acts].
    specialize (IH self' Hz').
    destruct (connect_to_server rest self') as [self'' acts'].
    rewrite Hl. cbn [snd List.length] in *. rewrite !count_occ_app.
    destruct IH as [IH1 IH2]. split; lia.
Qed.

(** [send_message] when the client is not connected: nothing is written and
    the client is as before. *)
Lemma send_message_not_connected
  (utf8_encode : string -> result Frame.bytes) (self : AsyncClient)
  (message : string) (outcome : write_outcome) :
  connected self = false \/ writer self = None ->
  send_message utf8_encode self message outcome = (false, self, None).
Proof.
  intros [H | H]; unfold send_message; rewrite H; [reflexivity|].
  now rewrite orb_true_r.
Qed.

(** X29. [send_message] when connected: one frame is written, and the
    reads of the peer give the message back and leave what follows on the
    stream, when the text codec gives back what it was given. *)
Lemma send_then_receive
  (utf8_encode : string -> result Frame.bytes)
  (utf8_decode : Frame.bytes -> result string)
  (self : AsyncClient) (w : nat) (message : string) (message_bytes rest : Frame.bytes) :
  connected self = true ->
  writer self = Some w ->
  utf8_encode message = Ok message_bytes ->
  utf8_decode message_bytes = Ok message ->
  (Frame.len message_bytes < 2 ^ 32)%Z ->
  exists frame,
    send_message utf8_encode self message Written = (true, self, Some frame) /\
    receive utf8_decode (frame ++ rest) = Ok (message, rest).
Proof.
  intros Hc Hw He Hd Hlen.
  exists (rev (Frame.digits_le 4 (Frame.len message_bytes)) ++ message_bytes).
  unfold send_message, receive. rewrite Hc, Hw, He. cbn [negb orb bind].
  rewrite (encode_ok _ Hlen). split; [reflexivity|].
  rewrite decode_frame.
  - cbn [bind]. now rewrite Hd.
  - now rewrite length_rev, digits_le_length.
  - rewrite from_bytes_digits. apply Z.mod_small.
    change (256 ^ Z.of_nat 4)%Z with (2 ^ 32)%Z. unfold Frame.len in *. lia.
Qed.

(** [send_message] when the write fails: [connected] is cleared. *)
Lemma send_message_failure
  (utf8_encode : string -> result Frame.bytes) (self : AsyncClient)
  (message : string) (outcome : write_outcome) :
  connected self = true ->
  writer self <> None ->
  outcome <> Written ->
  fst (fst (send_message utf8_encode self message outcome)) = false /\
  connected (snd (fst (send_message utf8_encode self message outcome))) = false.
Proof.
  intros Hc Hw Ho. unfold send_message. rewrite Hc.
  destruct (writer self); [|contradiction]. cbn [negb orb].
  destruct (bind (utf8_encode message) _); [|split; reflexivity].
  destruct outcome; [contradiction | split; reflexivity | split; reflexivity].
Qed.

(** C8 (what the code does). The connection drops while connected, after
    [n] frames were handled: the read loop is left by [break], [connected]
    stays true, the writer is not closed and no sleep is made; the next
    attempt to connect follows at once. The 5-second sleep, the clearing of
    [connected] and the closing of the writer are made only when
    [open_connection] itself raises. *)
Theorem drop_reconnects_at_once (w w' : nat) (n : nat) (self : AsyncClient) :
  connect_once (Accepted w (repeat (Message false) n ++ [IncompleteRead])) self =
    ({| connected := true; writer := Some w |},
     OpenConnection :: repeat Dispatch n) /\
  connect_once (Accepted w (repeat (Message false) n ++ [ReadException])) self =
    ({| connected := true; writer := Some w |},
     OpenConnection :: repeat Dispatch n) /\
  connect_to_server [Accepted w [IncompleteRead]; Accepted w' [IncompleteRead]] self =
    ({| connected := true; writer := Some w' |},
     [OpenConnection; OpenConnection]) /\
  connect_to_server [Accepted w [IncompleteRead]; Refused] self =
    ({| connected := false; writer := Some w |},
     [OpenConnection; OpenConnection; CloseWriter w; Sleep 5]).
Proof.
  split; [|split; [|split; reflexivity]].
  - cbn [connect_once]. rewrite read_loop_messages by reflexivity.
    cbn. now rewrite app_nil_r.
  - cbn [connect_once]. rewrite read_loop_messages by reflexivity.
    cbn. now rewrite app_nil_r.
Qed.

End SupervisorFacts.

(* ================================================================= *)
(** * Further properties *)

(* ================================================================= *)
(** ** Frame codec: what [decode] accepts *)

Section FrameMore.

Import Frame.
Local Open Scope Z_scope.

Lemma byte_of_Z_of_byte (b : byte) : byte_of_Z (Z_of_byte b) = b.
Proof.
  unfold byte_of_Z. pose proof (Z_of_byte_range b) as Hr.
  rewrite Z.mod_small by exact Hr.
  unfold Z_of_byte. rewrite N2Z.id, Byte.of_to_N. reflexivity.
Qed.

Lemma from_bytes_range (bs : bytes) :
  0 <= from_bytes bs < 256 ^ Z.of_nat (List.length bs).
Proof.
  induction bs as [|b bs IH] using rev_ind.
  - cbn. lia.
  - rewrite from_bytes_snoc, length_app. cbn [List.length].
    replace (Z.of_nat (List.length bs + 1)) with (Z.succ (Z.of_nat (List.length bs)))
      by lia.
    rewrite Z.pow_succ_r by lia.
    pose proof (Z_of_byte_range b). lia.
Qed.

(** The digits of the number that some bytes denote are those bytes. *)
Lemma digits_from_bytes (bs : bytes) :
  rev (digits_le (List.length bs) (from_bytes bs)) = bs.
Proof.
  induction bs as [|b bs IH] using rev_ind; [reflexivity|].
  rewrite from_bytes_snoc, length_app. cbn [List.length].
  replace (List.length bs + 1)%nat with (S (List.length bs)) by lia.
  cbn [digits_le rev].
  pose proof (Z_of_byte_range b) as Hb.
  replace ((from_bytes bs * 256 + Z_of_byte b) / 256) with (from_bytes bs)
    by (apply Z.div_unique with (r := Z_of_byte b); lia).
  replace ((from_bytes bs * 256 + Z_of_byte b) mod 256) with (Z_of_byte b)
    by (apply Z.mod_unique with (q := from_bytes bs); lia).
  now rewrite IH, byte_of_Z_of_byte.
Qed.

Lemma readexactly_inv (n : Z) (buf a b : bytes) :
  readexactly n buf = Ok (a, b) -> buf = a ++ b /\ len a = n.
Proof.
  unfold readexactly.
  destruct (n <? 0) eqn:E0; [discriminate|].
  destruct (len buf <? n) eqn:E1; [discriminate|].
  intros [= <- <-]. apply Z.ltb_ge in E0, E1. unfold len in *.
  split; [symmetry; apply firstn_skipn|].
  rewrite length_firstn. lia.
Qed.

Lemma encode_inv (P frame : bytes) :
  encode P = Ok frame ->
  len P < 2 ^ 32 /\ frame = rev (digits_le 4 (len P)) ++ P.
Proof.
  intros H.
  assert (Hlt : len P < 2 ^ 32).
  { destruct (Z.lt_ge_cases (len P) (2 ^ 32)) as [Hl | Hg]; [exact Hl|].
    rewrite (encode_overflow _ Hg) in H. discriminate. }
  split; [exact Hlt|]. rewrite (encode_ok _ Hlt) in H. now injection H.
Qed.

Lemma decode_encode (P frame rest : bytes) :
  encode P = Ok frame -> decode (frame ++ rest) = Ok (P, rest).
Proof.
  intros H. destruct (encode_inv _ _ H) as [Hlt ->].
  apply decode_frame.
  - now rewrite length_rev, digits_le_length.
  - rewrite from_bytes_digits. apply Z.mod_small.
    change (256 ^ Z.of_nat 4) with (2 ^ 32). unfold len in *. lia.
Qed.

(** X1. Whatever [decode] accepts is a frame that [encode] produces: when
    the reads give a payload and leave [rest], the stream was the frame of
    that payload followed by [rest]. *)
Theorem decode_only_frames (buf P rest : bytes) :
  decode buf = Ok (P, rest) ->
  exists frame, encode P = Ok frame /\ buf = frame ++ rest.
Proof.
  unfold decode. intros H.
  destruct (readexactly 4 buf) as [[length_data rest0]|e] eqn:E1; [|discriminate].
  cbn [bind] in H.
  destruct (readexactly (from_bytes length_data) rest0) as [[data rest1]|e] eqn:E2;
    [|discriminate].
  cbn [bind] in H. injection H as <- <-.
  destruct (readexactly_inv _ _ _ _ E1) as [-> H4].
  destruct (readexactly_inv _ _ _ _ E2) as [-> Hn].
  assert (Hlen4 : List.length length_data = 4%nat) by (unfold len in H4; lia).
  pose proof (from_bytes_range length_data) as Hr. rewrite Hlen4 in Hr.
  change (256 ^ Z.of_nat 4) with (2 ^ 32) in Hr.
  exists (length_data ++ data). split; [|now rewrite app_assoc].
  rewrite encode_ok by lia. rewrite Hn. f_equal. f_equal.
  rewrite <- Hlen4. apply digits_from_bytes.
Qed.

Lemma decode_only_frames_witness :
  decode [x00; x00; x00; x01; x41; x42] = Ok ([x41], [x42]) /\
  exists frame,
    encode [x41] = Ok frame /\ [x00; x00; x00; x01; x41; x42] = frame ++ [x42].
Proof.
  assert (H : decode [x00; x00; x00; x01; x41; x42] = Ok ([x41], [x42]))
    by reflexivity.
  split; [exact H | exact (decode_only_frames _ _ _ H)].
Defined.

(** X2. Frames are read back without ambiguity: two framed payloads, each
    followed by anything, that give the same stream are the same payload
    followed by the same thing. *)
Theorem frames_unambiguous (P P' frame frame' rest rest' : bytes) :
  encode P = Ok frame ->
  encode P' = Ok frame' ->
  frame ++ rest = frame' ++ rest' ->
  P = P' /\ rest = rest'.
Proof.
  intros H H' Heq.
  pose proof (decode_encode P frame rest H) as D.
  pose proof (decode_encode P' frame' rest' H') as D'.
  rewrite Heq, D' in D. now injection D.
Qed.

Lemma frames_unambiguous_witness :
  encode [x41] = Ok [x00; x00; x00; x01; x41] /\
  encode [x41] = Ok [x00; x00; x00; x01; x41] /\
  [x00; x00; x00; x01; x41] ++ [x42] = [x00; x00; x00; x01; x41] ++ [x42] /\
  [x41] = [x41] /\ [x42] = [x42].
Proof.
  assert (H : encode [x41] = Ok [x00; x00; x00; x01; x41]) by reflexivity.
  assert (E : [x00; x00; x00; x01; x41] ++ [x42] =
              [x00; x00; x00; x01; x41] ++ [x42]) by reflexivity.
  split; [exact H | split; [exact H | split; [exact E |]]].
  exact (frames_unambiguous [x41] [x41] _ _ [x42] [x42] H H E).
Defined.

(** X3. A stream that ends anywhere inside a frame, in the length or in the
    payload, is a short read: [decode] raises [IncompleteReadError]. *)
Theorem truncated_frame_fails (P frame : bytes) (n : nat) :
  encode P = Ok frame ->
  (n < List.length frame)%nat ->
  decode (firstn n frame) = Raise IncompleteReadError.
Proof.
  intros H Hn. destruct (encode_inv _ _ H) as [Hlt ->].
  set (hdr := rev (digits_le 4 (len P))) in *.
  assert (H4 : List.length hdr = 4%nat)
    by (unfold hdr; now rewrite length_rev, digits_le_length).
  rewrite length_app, H4 in Hn.
  destruct (Nat.lt_ge_cases n 4) as [Hs | Hge].
  - apply decode_short. unfold len. rewrite length_firstn. lia.
  - rewrite firstn_app, H4.
    rewrite firstn_all2 by lia.
    unfold decode.
    replace 4 with (len hdr) by (unfold len; now rewrite H4).
    rewrite readexactly_app. cbn [bind].
    assert (Hfrom : from_bytes hdr = len P).
    { unfold hdr. rewrite from_bytes_digits. apply Z.mod_small.
      change (256 ^ Z.of_nat 4) with (2 ^ 32). unfold len in *. lia. }
    rewrite Hfrom. unfold readexactly.
    destruct (len P <? 0) eqn:E0; [apply Z.ltb_lt in E0; unfold len in E0; lia|].
    assert (E1 : (len (firstn (n - 4) P) <? len P) = true).
    { apply Z.ltb_lt. unfold len. rewrite length_firstn. lia. }
    now rewrite E1.
Qed.

Lemma truncated_frame_fails_witness :
  encode [x68; x69] = Ok [x00; x00; x00; x02; x68; x69] /\
  (5 < List.length [x00; x00; x00; x02; x68; x69])%nat /\
  decode (firstn 5 [x00; x00; x00; x02; x68; x69]) = Raise IncompleteReadError.
Proof.
  assert (H : encode [x68; x69] = Ok [x00; x00; x00; x02; x68; x69])
    by reflexivity.
  assert (L : (5 < List.length [x00; x00; x00; x02; x68; x69])%nat)
    by (cbn; lia).
  split; [exact H | split; [exact L |]].
  exact (truncated_frame_fails [x68; x69] _ 5 H L).
Defined.

End FrameMore.

(* ================================================================= *)
(** ** Action state machine: invariants *)

Section StateMore.

Local Open Scope Q_scope.

(** X4. After any sequence of calls the two descriptions of the state
    agree: when [is_idle] holds, [current_state] is ["idle"] and
    [active_window] is [None]; when it does not, [current_state] is
    ["active_"] followed by [str(active_window)]. *)
Theorem state_fields_agree (py_str : pyval -> string) (calls : list call) :
  (is_idle (run py_str calls) = true ->
     current_state (run py_str calls) = "idle"%string /\
     active_window (run py_str calls) = PNone) /\
  (is_idle (run py_str calls) = false ->
     current_state (run py_str calls) =
       ("active_" ++ py_str (active_window (run py_str calls)))%string).
Proof.
  pose proof (encodes_run py_str calls) as He.
  pose proof (is_idle_encodes py_str _ _ He) as Hi.
  destruct (variant_of calls) as [|w]; cbn [encodes] in He;
    destruct He as [Hc Ha]; rewrite Hi; split; try discriminate.
  - intros _. now split.
  - intros _. now rewrite Hc, Ha.
Qed.

(** X5. After any sequence of calls, once the idle timeout has elapsed the
    cooldown has elapsed too: whenever [should_return_to_idle] is true,
    [can_execute_action] is true at the same clock reading. *)
Theorem timeout_implies_cooldown_over
  (py_str : pyval -> string) (calls : list call) (now : Q) :
  should_return_to_idle (run py_str calls) now = true ->
  can_execute_action (run py_str calls) now = true.
Proof.
  intros H. apply should_return_to_idle_spec in H. destruct H as [_ H].
  destruct (fields_after_calls py_str calls init) as (_ & Hc & Hi).
  cbn zeta in Hc, Hi. fold (run py_str calls) in Hc, Hi.
  unfold can_execute_action. apply Qle_bool_iff.
  rewrite Hc. rewrite Hi in H.
  change (action_cooldown init) with 2. change (idle_timeout init) with 10 in H.
  lra.
Qed.

Lemma timeout_implies_cooldown_over_witness :
  should_return_to_idle
    (run str_on_strings [SetActiveWindow (PStr "window1") 1700000000])
    (1700000000 + 10) = true /\
  can_execute_action
    (run str_on_strings [SetActiveWindow (PStr "window1") 1700000000])
    (1700000000 + 10) = true.
Proof.
  assert (H : should_return_to_idle
                (run str_on_strings [SetActiveWindow (PStr "window1") 1700000000])
                (1700000000 + 10) = true) by reflexivity.
  split; [exact H |].
  exact (timeout_implies_cooldown_over str_on_strings
           [SetActiveWindow (PStr "window1") 1700000000] (1700000000 + 10) H).
Defined.

End StateMore.

(* ================================================================= *)
(** ** Action execution and command router: more cases *)

Section RouterMore.

Import Router.
Local Open Scope Q_scope.

(** X6. [execute_action] returns [True] exactly when the window is a
    configured window on which the focus click works and the action is a
    configured action whose key presses work. *)
Theorem execute_action_success_iff
  (env : Action.Env) (cfg : Action.Config) (window_key action_name : pyval) :
  Action.execute_action env cfg window_key action_name = Ok true <->
  exists k a info profile,
    window_key = PStr k /\ action_name = PStr a /\
    lookup k (Action.active_windows cfg) = Some info /\
    Action.mouse_ok env k = true /\
    lookup a (Action.actions_config cfg) = Some profile /\
    Action.keys_ok env k profile = true.
Proof.
  unfold Action.execute_action, Action.focus_window. split.
  - destruct window_key as [| | | |k| |]; cbn [contains bind negb]; try discriminate.
    destruct (lookup k (Action.active_windows cfg)) as [info|] eqn:Ek;
      cbn [negb]; [|discriminate].
    destruct (Action.mouse_ok env k) eqn:Em; cbn [negb]; [|discriminate].
    destruct action_name as [| | | |a| |]; cbn [contains bind negb]; try discriminate.
    destruct (lookup a (Action.actions_config cfg)) as [profile|] eqn:Ea;
      cbn [negb]; [|discriminate].
    intros [= Hk]. now exists k, a, info, profile.
  - intros (k & a & info & profile & -> & -> & Ek & Em & Ea & Hk).
    cbn [contains bind]. rewrite Ek. cbn [negb]. rewrite Em. cbn [negb bind].
    rewrite Ea. cbn [negb]. now rewrite Hk.
Qed.

(** X7. A command for a window that is not configured is answered with
    status [error], and the state machine has all the same moved to Active
    on that window, with the clock reading of the command. *)
Theorem unknown_window_error_and_transition
  (json_loads : string -> result pyval) (py_str : pyval -> string)
  (env : Action.Env) (cfg : Action.Config)
  (message : string) (data action : pyval) (k : string)
  (t_check t_set : Q) (w : world) :
  json_loads message = Ok data ->
  is_execute data (PStr k) action ->
  can_execute_action (state_manager w) t_check = true ->
  lookup k (Action.active_windows cfg) = None ->
  handle_server_message json_loads py_str env cfg message t_check t_set w =
  {| state_manager := set_active_window py_str (state_manager w) (PStr k) t_set;
     sent := sent w ++
             [PDict [("status", PStr "error");
                     ("window", PStr k);
                     ("action", action);
                     ("state", PStr ("active_" ++ py_str (PStr k)))]%string] |}.
Proof.
  intros Hload Hexec Hcan Hk.
  rewrite (handle_execute json_loads py_str env cfg message data (PStr k) action
             t_check t_set w Hload Hexec), Hcan.
  unfold Action.execute_action, Action.focus_window. cbn [contains bind].
  rewrite Hk. reflexivity.
Qed.

Lemma unknown_window_error_and_transition_witness :
  (fun _ : string =>
     Ok (PDict [("command", PStr "execute"); ("window", PStr "window9")]%string))
    "any"%string =
    Ok (PDict [("command", PStr "execute"); ("window", PStr "window9")]%string) /\
  is_execute (PDict [("command", PStr "execute"); ("window", PStr "window9")]%string)
    (PStr "window9") (PStr "f1_action") /\
  can_execute_action (state_manager Scenario.fresh) Scenario.t0 = true /\
  lookup "window9" (Action.active_windows Scenario.cfg) = None /\
  handle_server_message
    (fun _ : string =>
       Ok (PDict [("command", PStr "execute"); ("window", PStr "window9")]%string))
    str_on_strings Scenario.env_ok Scenario.cfg "any" Scenario.t0 Scenario.t0
    Scenario.fresh =
  {| state_manager :=
       set_active_window str_on_strings (state_manager Scenario.fresh)
         (PStr "window9") Scenario.t0;
     sent := sent Scenario.fresh ++
             [PDict [("status", PStr "error");
                     ("window", PStr "window9");
                     ("action", PStr "f1_action");
                     ("state", PStr ("active_" ++ str_on_strings (PStr "window9")))]%string] |}.
Proof.
  assert (H1 : (fun _ : string =>
     Ok (PDict [("command", PStr "execute"); ("window", PStr "window9")]%string))
    "any"%string =
    Ok (PDict [("command", PStr "execute"); ("window", PStr "window9")]%string))
    by reflexivity.
  assert (H2 : is_execute
                 (PDict [("command", PStr "execute"); ("window", PStr "window9")]%string)
                 (PStr "window9") (PStr "f1_action")) by (repeat split).
  assert (H3 : can_execute_action (state_manager Scenario.fresh) Scenario.t0 = true)
    by reflexivity.
  assert (H4 : lookup "window9" (Action.active_windows Scenario.cfg) = None)
    by reflexivity.
  split; [exact H1 | split; [exact H2 | split; [exact H3 | split; [exact H4 |]]]].
  exact (unknown_window_error_and_transition _ str_on_strings Scenario.env_ok
           Scenario.cfg "any" _ (PStr "f1_action") "window9"
           Scenario.t0 Scenario.t0 Scenario.fresh H1 H2 H3 H4).
Defined.

End RouterMore.

Section RouterSequences.

Import Router.
Local Open Scope Q_scope.

(** The handler on a message that is not an execute command. *)
Lemma handle_ignored
  (json_loads : string -> result pyval) (py_str : pyval -> string)
  (env : Action.Env) (cfg : Action.Config)
  (message : string) (t_check t_set : Q) (w : world) :
  (forall data window action,
     json_loads message = Ok data -> ~ is_execute data window action) ->
  handle_server_message json_loads py_str env cfg message t_check t_set w = w.
Proof.
  intros Hnot.
  unfold handle_server_message, try_except, bindM, lift.
  destruct (json_loads message) as [data|e] eqn:El; [|reflexivity].
  destruct (get data "command" PNone) as [command|] eqn:Ec; [|reflexivity].
  destruct (get data "window" PNone) as [window|] eqn:Ew; [|reflexivity].
  destruct (get data "action" (PStr "f1_action")) as [action|] eqn:Ea; [|reflexivity].
  destruct (eq_str command "execute" && truthy window) eqn:E; [|reflexivity].
  apply andb_true_iff in E. destruct E as [E1 E2].
  exfalso. apply (Hnot data window action eq_refl).
  repeat split; auto.
  destruct command; cbn in E1; try discriminate.
  apply String.eqb_eq in E1. now subst.
Qed.

(** X8. Every message has one of three effects and no other: nothing at
    all; the cooldown reply, with the state machine untouched; or the
    transition to Active on the window of the command, with at most one
    reply, which carries the window, the action and the new state. *)
Theorem handler_effects
  (json_loads : string -> result pyval) (py_str : pyval -> string)
  (env : Action.Env) (cfg : Action.Config)
  (message : string) (t_check t_set : Q) (w : world) :
  let w' := handle_server_message json_loads py_str env cfg message t_check t_set w in
  w' = w \/
  (exists data window action,
     json_loads message = Ok data /\ is_execute data window action /\
     can_execute_action (state_manager w) t_check = false /\
     state_manager w' = state_manager w /\
     sent w' = sent w ++ [cooldown_response window action]) \/
  (exists data window action,
     json_loads message = Ok data /\ is_execute data window action /\
     can_execute_action (state_manager w) t_check = true /\
     state_manager w' = set_active_window py_str (state_manager w) window t_set /\
     (sent w' = sent w \/
      exists success,
        sent w' = sent w ++
                  [outcome_response success window action
                     ("active_" ++ py_str window)%string])).
Proof.
  cbn zeta.
  destruct (json_loads message) as [data|e] eqn:El.
  2:{ left. apply handle_ignored. intros d x a H. rewrite El in H. discriminate. }
  destruct (execute_or_not data) as [(window & action & Hex) | Hno].
  - right.
    rewrite (handle_execute json_loads py_str env cfg message data window action
               t_check t_set w El Hex).
    destruct (can_execute_action (state_manager w) t_check) eqn:Ecan.
    + right. exists data, window, action.
      split; [reflexivity | split; [exact Hex | split; [reflexivity | split]]].
      * cbn zeta. destruct (Action.execute_action env cfg window action); reflexivity.
      * cbn zeta. destruct (Action.execute_action env cfg window action) as [success|e];
          [right; exists success; reflexivity | left; reflexivity].
    + left. exists data, window, action.
      split; [reflexivity | split; [exact Hex | split; [reflexivity | split; reflexivity]]].
  - left. apply handle_ignored. intros d x a H (Hc & Hw & Ht & Ha).
    rewrite El in H. injection H as <-.
    destruct Hno as [Hd | [(c & Hc' & Hne) | (win & Hw' & Hf)]].
    + destruct data; cbn in Hc; try discriminate. now apply (Hd d).
    + rewrite Hc in Hc'. injection Hc' as <-. now apply Hne.
    + rewrite Hw in Hw'. injection Hw' as <-. congruence.
Qed.

(** X9. Two commands in a row: after a command was accepted with the clock
    reading [t_set] at its transition, a command whose cooldown check reads
    less than [action_cooldown] later gets the cooldown reply and changes
    nothing; one that reads [action_cooldown] later or more makes its own
    transition. *)
Theorem second_command_after_accepted
  (json_loads : string -> result pyval) (py_str : pyval -> string)
  (env : Action.Env) (cfg : Action.Config)
  (m1 m2 : string) (data1 data2 window1 action1 window2 action2 : pyval)
  (t_check1 t_set1 t_check2 t_set2 : Q) (w : world) :
  json_loads m1 = Ok data1 ->
  is_execute data1 window1 action1 ->
  can_execute_action (state_manager w) t_check1 = true ->
  json_loads m2 = Ok data2 ->
  is_execute data2 window2 action2 ->
  let w1 := handle_server_message json_loads py_str env cfg m1 t_check1 t_set1 w in
  let w2 := handle_server_message json_loads py_str env cfg m2 t_check2 t_set2 w1 in
  (t_check2 - t_set1 < action_cooldown (state_manager w) ->
     state_manager w2 = state_manager w1 /\
     sent w2 = sent w1 ++ [cooldown_response window2 action2]) /\
  (action_cooldown (state_manager w) <= t_check2 - t_set1 ->
     state_manager w2 = set_active_window py_str (state_manager w1) window2 t_set2).
Proof.
  intros Hl1 Hx1 Hcan Hl2 Hx2 w1 w2.
  pose proof (transition_recorded json_loads py_str env cfg m1 data1 window1
                action1 t_check1 t_set1 w Hl1 Hx1 Hcan) as Hs1.
  fold w1 in Hs1.
  assert (Hc2 : can_execute_action (state_manager w1) t_check2 =
                Qle_bool (action_cooldown (state_manager w)) (t_check2 - t_set1))
    by (rewrite Hs1; reflexivity).
  subst w2.
  rewrite (handle_execute json_loads py_str env cfg m2 data2 window2 action2
             t_check2 t_set2 w1 Hl2 Hx2), Hc2.
  split; intros H.
  - apply Qle_bool_false in H. rewrite H. split; reflexivity.
  - apply Qle_bool_iff in H. rewrite H. cbn zeta.
    destruct (Action.execute_action env cfg window2 action2); reflexivity.
Qed.

Lemma second_command_after_accepted_witness :
  Scenario.loads "F1" = Ok Scenario.f1_command /\
  is_execute Scenario.f1_command (PStr "window1") (PStr "f1_action") /\
  can_execute_action (state_manager Scenario.fresh) Scenario.t0 = true /\
  Scenario.loads "F2" = Ok Scenario.f2_command /\
  is_execute Scenario.f2_command (PStr "window2") (PStr "f2_action") /\
  let w1 := handle_server_message Scenario.loads str_on_strings Scenario.env_ok
              Scenario.cfg "F1" Scenario.t0 Scenario.t0 Scenario.fresh in
  let w2 := handle_server_message Scenario.loads str_on_strings Scenario.env_ok
              Scenario.cfg "F2" (Scenario.t0 + 1) (Scenario.t0 + 1) w1 in
  (Scenario.t0 + 1 - Scenario.t0 < action_cooldown (state_manager Scenario.fresh) ->
     state_manager w2 = state_manager w1 /\
     sent w2 = sent w1 ++ [cooldown_response (PStr "window2") (PStr "f2_action")]) /\
  (action_cooldown (state_manager Scenario.fresh) <= Scenario.t0 + 1 - Scenario.t0 ->
     state_manager w2 =
       set_active_window str_on_strings (state_manager w1) (PStr "window2")
         (Scenario.t0 + 1)).
Proof.
  assert (H1 : Scenario.loads "F1" = Ok Scenario.f1_command) by reflexivity.
  assert (H2 : is_execute Scenario.f1_command (PStr "window1") (PStr "f1_action"))
    by (repeat split).
  assert (H3 : can_execute_action (state_manager Scenario.fresh) Scenario.t0 = true)
    by reflexivity.
  assert (H4 : Scenario.loads "F2" = Ok Scenario.f2_command) by reflexivity.
  assert (H5 : is_execute Scenario.f2_command (PStr "window2") (PStr "f2_action"))
    by (repeat split).
  split; [exact H1 | split; [exact H2 | split; [exact H3 |
    split; [exact H4 | split; [exact H5 |]]]]].
  exact (second_command_after_accepted Scenario.loads str_on_strings
           Scenario.env_ok Scenario.cfg "F1" "F2" _ _ _ _ _ _
           Scenario.t0 Scenario.t0 (Scenario.t0 + 1) (Scenario.t0 + 1)
           Scenario.fresh H1 H2 H3 H4 H5).
Defined.

Lemma lookup_app_other {A : Type} (k k' : string) (v : A) (d : list (string * A)) :
  k <> k' -> lookup k (d ++ [(k', v)]) = lookup k d.
Proof.
  intros Hne. induction d as [|[k0 v0] d IH]; cbn [app lookup].
  - apply String.eqb_neq in Hne. now rewrite Hne.
  - now rewrite IH.
Qed.

Lemma lookup_app_missing {A : Type} (k : string) (v : A) (d : list (string * A)) :
  lookup k d = None -> lookup k (d ++ [(k, v)]) = Some v.
Proof.
  induction d as [|[k0 v0] d IH]; cbn [app lookup].
  - now rewrite String.eqb_refl.
  - destruct (String.eqb k k0); [discriminate | exact IH].
Qed.

(** X10. A command without an [action] key is handled as the same command
    with [action] set to ["f1_action"]: same transition, same reply. *)
Theorem missing_action_defaults
  (json_loads : string -> result pyval) (py_str : pyval -> string)
  (env : Action.Env) (cfg : Action.Config)
  (m m' : string) (d : list (string * pyval)) (t_check t_set : Q) (w : world) :
  json_loads m = Ok (PDict d) ->
  lookup "action" d = None ->
  json_loads m' = Ok (PDict (d ++ [("action", PStr "f1_action")]%string)) ->
  handle_server_message json_loads py_str env cfg m t_check t_set w =
  handle_server_message json_loads py_str env cfg m' t_check t_set w.
Proof.
  intros Hl Hna Hl'.
  unfold handle_server_message, try_except, bindM, lift.
  rewrite Hl, Hl'. cbn [get].
  rewrite (lookup_app_other "command" "action") by discriminate.
  rewrite (lookup_app_other "window" "action") by discriminate.
  rewrite (lookup_app_missing "action" _ d Hna), Hna.
  reflexivity.
Qed.

Lemma missing_action_defaults_witness :
  (fun m : string =>
     if String.eqb m "short"
     then Ok (PDict [("command", PStr "execute"); ("window", PStr "window1")]%string)
     else Ok Scenario.f1_command) "short"%string =
    Ok (PDict [("command", PStr "execute"); ("window", PStr "window1")]%string) /\
  lookup "action" [("command", PStr "execute"); ("window", PStr "window1")]%string
    = None /\
  (fun m : string =>
     if String.eqb m "short"
     then Ok (PDict [("command", PStr "execute"); ("window", PStr "window1")]%string)
     else Ok Scenario.f1_command) "full"%string =
    Ok (PDict ([("command", PStr "execute"); ("window", PStr "window1")]%string ++
               [("action", PStr "f1_action")]%string)) /\
  handle_server_message
    (fun m : string =>
       if String.eqb m "short"
       then Ok (PDict [("command", PStr "execute"); ("window", PStr "window1")]%string)
       else Ok Scenario.f1_command)
    str_on_strings Scenario.env_ok Scenario.cfg "short"
    Scenario.t0 Scenario.t0 Scenario.fresh =
  handle_server_message
    (fun m : string =>
       if String.eqb m "short"
       then Ok (PDict [("command", PStr "execute"); ("window", PStr "window1")]%string)
       else Ok Scenario.f1_command)
    str_on_strings Scenario.env_ok Scenario.cfg "full"
    Scenario.t0 Scenario.t0 Scenario.fresh.
Proof.
  split; [reflexivity | split; [reflexivity | split; [reflexivity |]]].
  exact (missing_action_defaults
           (fun m : string =>
              if String.eqb m "short"
              then Ok (PDict [("command", PStr "execute");
                              ("window", PStr "window1")]%string)
              else Ok Scenario.f1_command)
           str_on_strings Scenario.env_ok Scenario.cfg "short" "full"
           [("command", PStr "execute"); ("window", PStr "window1")]%string
           Scenario.t0 Scenario.t0 Scenario.fresh eq_refl eq_refl eq_refl).
Defined.

End RouterSequences.

(* ================================================================= *)
(** ** Idle scheduler: arbitration with the command router *)

Section IdleMore.

Import IdleLoop.
Local Open Scope Q_scope.

(** X11. While the machine is Active and its idle timeout has not elapsed,
    a turn of the idle loop does nothing: no focus, no key press, no move of
    the index, no change of state. *)
Theorem active_turn_does_nothing
  (env : Action.Env) (cfg : Action.Config) (t : turn)
  (sm : StateManager) (im : IdleManager) :
  is_idle sm = false ->
  now t - last_action_time sm < idle_timeout sm ->
  iteration env cfg t sm im = (sm, im, []).
Proof.
  intros Hidle Hlt. unfold iteration.
  assert (Hr : should_return_to_idle sm (now t) = false).
  { unfold should_return_to_idle. rewrite Hidle. now apply Qle_bool_false. }
  now rewrite Hr, Hidle.
Qed.

Lemma active_turn_does_nothing_witness :
  is_idle (Demo.state_manager_of_active1) = false /\
  now (quiet (Scenario.t0 + 8)) - last_action_time Demo.state_manager_of_active1 <
    idle_timeout Demo.state_manager_of_active1 /\
  iteration Scenario.env_ok Scenario.cfg (quiet (Scenario.t0 + 8))
    Demo.state_manager_of_active1 IdleLoop.init =
  (Demo.state_manager_of_active1, IdleLoop.init, []).
Proof.
  assert (H1 : is_idle Demo.state_manager_of_active1 = false) by reflexivity.
  assert (H2 : now (quiet (Scenario.t0 + 8)) -
               last_action_time Demo.state_manager_of_active1 <
               idle_timeout Demo.state_manager_of_active1)
    by (unfold Qlt; cbn; lia).
  split; [exact H1 | split; [exact H2 |]].
  exact (active_turn_does_nothing Scenario.env_ok Scenario.cfg
           (quiet (Scenario.t0 + 8)) Demo.state_manager_of_active1 IdleLoop.init H1 H2).
Defined.

End IdleMore.

Section IdleRuns.

Import IdleLoop.
Local Open Scope nat_scope.

Variable env : Action.Env.
Variable cfg : Action.Config.

(** X13. Once [stop_idle_mode] is called during a turn, that turn is
    completed and no other turn is made, whatever remains of the
    environment: the run is the run up to and with that turn. *)
Theorem nothing_after_stop
  (ts1 ts2 : list turn) (t : turn) (sm : StateManager) (im : IdleManager) :
  stop_requested t = true ->
  iterations env cfg (ts1 ++ t :: ts2) sm im =
  iterations env cfg (ts1 ++ [t]) sm im.
Proof.
  intros Hstop. revert sm im.
  induction ts1 as [|t1 ts1 IH]; intros sm im.
  - cbn [app iterations]. destruct (is_running im); [|reflexivity].
    destruct (iteration env cfg t sm im) as [[sm1 im1] ev1].
    rewrite Hstop.
    replace (iterations env cfg ts2 (during_sleep t sm1) (stop_idle_mode im1))
      with (during_sleep t sm1, stop_idle_mode im1, @nil event)
      by (destruct ts2; reflexivity).
    reflexivity.
  - cbn [app iterations]. destruct (is_running im); [|reflexivity].
    destruct (iteration env cfg t1 sm im) as [[sm1 im1] ev1].
    now rewrite IH.
Qed.

End IdleRuns.

Lemma nothing_after_stop_witness :
  IdleLoop.stop_requested
    {| IdleLoop.now := 8%Q; IdleLoop.during_delay := fun s => s;
       IdleLoop.during_action := fun s => s; IdleLoop.during_sleep := fun s => s;
       IdleLoop.stop_requested := true |} = true /\
  IdleLoop.iterations Scenario.env_ok Scenario.cfg
    ([IdleLoop.quiet 0%Q] ++
     {| IdleLoop.now := 8%Q; IdleLoop.during_delay := fun s => s;
        IdleLoop.during_action := fun s => s; IdleLoop.during_sleep := fun s => s;
        IdleLoop.stop_requested := true |} :: [IdleLoop.quiet 16%Q])
    State.init
    {| IdleLoop.is_running := true; IdleLoop.current_window_index := 0 |} =
  IdleLoop.iterations Scenario.env_ok Scenario.cfg
    ([IdleLoop.quiet 0%Q] ++
     [{| IdleLoop.now := 8%Q; IdleLoop.during_delay := fun s => s;
         IdleLoop.during_action := fun s => s; IdleLoop.during_sleep := fun s => s;
         IdleLoop.stop_requested := true |}])
    State.init
    {| IdleLoop.is_running := true; IdleLoop.current_window_index := 0 |}.
Proof.
  split; [reflexivity |].
  exact (nothing_after_stop Scenario.env_ok Scenario.cfg
           [IdleLoop.quiet 0%Q] [IdleLoop.quiet 16%Q]
           {| IdleLoop.now := 8%Q; IdleLoop.during_delay := fun s => s;
              IdleLoop.during_action := fun s => s;
              IdleLoop.during_sleep := fun s => s;
              IdleLoop.stop_requested := true |}
           State.init
           {| IdleLoop.is_running := true; IdleLoop.current_window_index := 0 |}
           eq_refl).
Defined.

Section IdleEdges.

Import IdleLoop.
Local Open Scope Q_scope.

(** X14. When the idle timeout of an Active machine has elapsed, the turn
    sets the machine Idle and goes on, in the same turn, with the window at
    the index where the loop had stopped; the index then advances by one. *)
Theorem timeout_turn_resumes_at_index
  (env : Action.Env) (cfg : Action.Config) (t : turn)
  (sm : StateManager) (im : IdleManager) :
  is_idle sm = false ->
  idle_timeout sm <= now t - last_action_time sm ->
  Action.get_window_list cfg <> [] ->
  exists sm' evs,
    iteration env cfg t sm im =
      (sm',
       {| is_running := is_running im;
          current_window_index :=
            advance (Action.get_window_list cfg) (current_window_index im) |},
       ReturnedToIdle :: evs) /\
    visited evs = [select (Action.get_window_list cfg) (current_window_index im)].
Proof.
  intros Hidle Hle Hne. unfold iteration.
  assert (Hr : should_return_to_idle sm (now t) = true)
    by (apply should_return_to_idle_spec; split; assumption).
  rewrite Hr. rewrite is_idle_set_idle.
  destruct (Action.get_window_list cfg) as [|w0 ws]; [contradiction|].
  destruct (Action.focus_window env cfg
              (PStr (select (w0 :: ws) (current_window_index im))))
    as [[|]|e]; [destruct (is_idle (during_delay t (set_idle sm))) | |];
    eexists; eexists; split; reflexivity.
Qed.

Lemma timeout_turn_resumes_at_index_witness :
  is_idle Demo.state_manager_of_active1 = false /\
  idle_timeout Demo.state_manager_of_active1 <=
    now (quiet (Scenario.t0 + 10)) - last_action_time Demo.state_manager_of_active1 /\
  Action.get_window_list Scenario.cfg <> [] /\
  exists sm' evs,
    iteration Scenario.env_ok Scenario.cfg (quiet (Scenario.t0 + 10))
      Demo.state_manager_of_active1
      {| is_running := true; current_window_index := 3 |} =
      (sm',
       {| is_running := true;
          current_window_index :=
            advance (Action.get_window_list Scenario.cfg) 3 |},
       ReturnedToIdle :: evs) /\
    visited evs = [select (Action.get_window_list Scenario.cfg) 3].
Proof.
  assert (H1 : is_idle Demo.state_manager_of_active1 = false) by reflexivity.
  assert (H2 : idle_timeout Demo.state_manager_of_active1 <=
               now (quiet (Scenario.t0 + 10)) -
               last_action_time Demo.state_manager_of_active1)
    by (unfold Qle; cbn; lia).
  assert (H3 : Action.get_window_list Scenario.cfg <> []) by discriminate.
  split; [exact H1 | split; [exact H2 | split; [exact H3 |]]].
  exact (timeout_turn_resumes_at_index Scenario.env_ok Scenario.cfg
           (quiet (Scenario.t0 + 10)) Demo.state_manager_of_active1
           {| is_running := true; current_window_index := 3 |} H1 H2 H3).
Defined.

(** X15. With no window configured, no run of the idle loop focuses a
    window or presses a key, and the index stays where it is: the modulo by
    the number of windows is never taken. *)
Theorem no_windows_no_action
  (env : Action.Env) (cfg : Action.Config) (ts : list turn)
  (sm : StateManager) (im : IdleManager) :
  Action.get_window_list cfg = [] ->
  current_window_index (snd (fst (start_idle_mode env cfg ts sm im))) =
    current_window_index im /\
  forall e, In e (snd (start_idle_mode env cfg ts sm im)) -> e = ReturnedToIdle.
Proof.
  intros Hno.
  assert (Hturn : forall t s i,
            snd (fst (iteration env cfg t s i)) = i /\
            forall e, In e (snd (iteration env cfg t s i)) -> e = ReturnedToIdle).
  { intros t s i. unfold iteration. rewrite Hno.
    destruct (should_return_to_idle s (now t));
      [rewrite is_idle_set_idle | destruct (is_idle s)];
      cbn; split; try reflexivity; intros e; tauto || (intros [<- | []]; reflexivity). }
  assert (Hrun : forall ts' s i,
            current_window_index (snd (fst (iterations env cfg ts' s i))) =
              current_window_index i /\
            forall e, In e (snd (iterations env cfg ts' s i)) -> e = ReturnedToIdle).
  { induction ts' as [|t ts' IH]; intros s i; [cbn; split; [reflexivity | tauto]|].
    cbn [iterations]. destruct (is_running i); [|cbn; split; [reflexivity | tauto]].
    destruct (Hturn t s i) as [Hi He].
    destruct (iteration env cfg t s i) as [[sm1 im1] ev1]. cbn [fst snd] in Hi, He.
    subst im1.
    specialize (IH (during_sleep t sm1)
                  (if stop_requested t then stop_idle_mode i else i)).
    destruct (iterations env cfg ts' (during_sleep t sm1)
                (if stop_requested t then stop_idle_mode i else i))
      as [[sm2 im2] ev2].
    cbn [fst snd] in *. destruct IH as [IHi IHe]. split.
    - rewrite IHi. now destruct (stop_requested t).
    - intros e Hin. apply in_app_or in Hin. destruct Hin; auto. }
  unfold start_idle_mode. destruct (is_running im); [cbn; split; [reflexivity | tauto]|].
  apply (Hrun ts (set_idle sm)
           {| is_running := true; current_window_index := current_window_index im |}).
Qed.

Lemma no_windows_no_action_witness :
  Action.get_window_list
    {| Action.active_windows := []; Action.actions_config := [] |} = [] /\
  current_window_index
    (snd (fst (start_idle_mode Scenario.env_ok
                 {| Action.active_windows := []; Action.actions_config := [] |}
                 [quiet 0; quiet 8] State.init IdleLoop.init))) =
    current_window_index IdleLoop.init /\
  forall e,
    In e (snd (start_idle_mode Scenario.env_ok
                 {| Action.active_windows := []; Action.actions_config := [] |}
                 [quiet 0; quiet 8] State.init IdleLoop.init)) ->
    e = ReturnedToIdle.
Proof.
  split; [reflexivity |].
  exact (no_windows_no_action Scenario.env_ok
           {| Action.active_windows := []; Action.actions_config := [] |}
           [quiet 0; quiet 8] State.init IdleLoop.init eq_refl).
Defined.

End IdleEdges.

(* ================================================================= *)
(** ** Client registry: any number of failed writes *)

Section RegistryMore.

Import Registry.
Local Open Scope nat_scope.

Variable write_ok : conn -> bool.

Lemma remove_after_good (c : conn) (p l : list conn) :
  (forall d, In d p -> write_ok d = true) ->
  write_ok c = false ->
  remove c (p ++ c :: l) = p ++ l.
Proof.
  intros Hp Hc. induction p as [|a p IH]; cbn [app remove].
  - now rewrite Nat.eqb_refl.
  - destruct (Nat.eqb c a) eqn:E.
    + apply Nat.eqb_eq in E. subst a.
      rewrite (Hp c) in Hc by now left. discriminate.
    + rewrite IH; [reflexivity | intros d Hd; apply Hp; now right].
Qed.

Lemma remove_loop_failures (l p : list conn) :
  (forall d, In d p -> write_ok d = true) ->
  remove_loop (filter (fun x => negb (write_ok x)) l) (p ++ l) =
    (p ++ filter write_ok l,
     map Removed (filter (fun x => negb (write_ok x)) l)).
Proof.
  revert p. induction l as [|a l IH]; intros p Hp.
  - reflexivity.
  - cbn [filter]. destruct (write_ok a) eqn:Ea; cbn [negb].
    + replace (p ++ a :: l) with ((p ++ [a]) ++ l) by now rewrite <- app_assoc.
      rewrite IH.
      * now rewrite <- app_assoc.
      * intros d Hd. apply in_app_or in Hd.
        destruct Hd as [Hd | [<- | []]]; [now apply Hp | exact Ea].
    + cbn [remove_loop].
      assert (Hm : mem a (p ++ a :: l) = true)
        by (apply mem_In, in_or_app; right; now left).
      rewrite Hm, (remove_after_good a p l Hp Ea), (IH p Hp). reflexivity.
Qed.

(** X16. A broadcast during which the other tasks leave the registry as it
    is, whatever the number of writes that fail: there is one write attempt
    per registered connection, in order, then the removals; the registry
    afterwards holds exactly the connections whose write succeeded, in
    their order, and these are the connections that received the frame. *)
Theorem broadcast_keeps_receivers
  (utf8_encode : string -> result Frame.bytes)
  (others : list (list conn -> list conn))
  (message : string) (message_bytes : Frame.bytes) (clients : list conn) :
  utf8_encode message = Ok message_bytes ->
  (Frame.len message_bytes < 2 ^ 32)%Z ->
  Forall (fun during_drain => during_drain clients = clients) others ->
  exists frame,
    Frame.encode message_bytes = Ok frame /\
    send_to_all_clients utf8_encode write_ok others message clients =
      Ok (filter write_ok clients,
          map (write_event write_ok frame) clients ++
          map Removed (filter (fun x => negb (write_ok x)) clients)) /\
    receivers (map (write_event write_ok frame) clients ++
               map Removed (filter (fun x => negb (write_ok x)) clients)) =
      filter write_ok clients.
Proof.
  intros Hutf Hlen Hquiet.
  exists (rev (Frame.digits_le 4 (Frame.len message_bytes)) ++ message_bytes).
  split; [now apply encode_ok|]. split.
  - unfold send_to_all_clients. destruct clients as [|a rest] eqn:Ecl; [reflexivity|].
    rewrite <- Ecl in *. rewrite Hutf. cbn [bind]. rewrite (encode_ok _ Hlen).
    cbn [bind]. rewrite (write_loop_live_quiet write_ok _ others clients Hquiet).
    pose proof (remove_loop_failures clients []) as H. cbn [app] in H.
    rewrite H by (intros d []). reflexivity.
  - assert (Happ : forall a b, receivers (a ++ b) = receivers a ++ receivers b).
    { induction a as [|[] a IHa]; intros b; cbn; rewrite ?IHa; reflexivity. }
    assert (Hrem : forall l, receivers (map Removed l) = []).
    { induction l as [|x l IHl]; [reflexivity | exact IHl]. }
    now rewrite Happ, receivers_writes, Hrem, app_nil_r.
Qed.

(** X31. The first loop of a broadcast reads the registry as it is at each
    turn: when the reader of the first connection unregisters it while the
    broadcast waits in the drain on that connection, the connection that
    was second moves to the index the iterator has passed: it stays
    registered and, being registered once, is sent nothing; the connections
    after it are written to as usual. *)
Theorem removal_during_drain_skips_next
  (utf8_encode : string -> result Frame.bytes)
  (message : string) (message_bytes : Frame.bytes)
  (c0 c1 : conn) (rest : list conn) :
  utf8_encode message = Ok message_bytes ->
  (Frame.len message_bytes < 2 ^ 32)%Z ->
  (forall d, In d (c0 :: rest) -> write_ok d = true) ->
  exists frame,
    Frame.encode message_bytes = Ok frame /\
    send_to_all_clients utf8_encode write_ok [unregister c0] message
      (c0 :: c1 :: rest) =
      Ok (c1 :: rest, Wrote c0 frame :: map (fun d => Wrote d frame) rest) /\
    (NoDup (c0 :: c1 :: rest) ->
     ~ In c1 (map target (Wrote c0 frame :: map (fun d => Wrote d frame) rest))).
Proof.
  intros Hutf Hlen Hall.
  exists (rev (Frame.digits_le 4 (Frame.len message_bytes)) ++ message_bytes).
  split; [now apply encode_ok|].
  split.
  2:{ intros Hnd. inversion Hnd as [|? ? H0 Hnd']; subst.
      inversion Hnd' as [|? ? H1 _]; subst.
      cbn [map target In]. rewrite map_map. cbn [target]. rewrite map_id.
      intros [-> | H]; [apply H0; now left | contradiction]. }
  unfold send_to_all_clients. rewrite Hutf. cbn [bind].
  rewrite (encode_ok _ Hlen). cbn [bind].
  cbn [write_loop_live nth_error].
  assert (Hu : unregister c0 (c0 :: c1 :: rest) = c1 :: rest).
  { unfold unregister, mem. cbn [existsb remove].
    now rewrite Nat.eqb_refl. }
  rewrite Hu. cbn [skipn].
  rewrite (receivers_all_ok write_ok _ rest)
    by (intros d Hd; apply Hall; now right).
  unfold write_event. rewrite (Hall c0) by now left.
  cbn [remove_loop]. now rewrite app_nil_r.
Qed.

End RegistryMore.

Lemma broadcast_keeps_receivers_witness :
  Scenario.ascii_encode "hi" = Ok [x68; x69] /\
  (Frame.len [x68; x69] < 2 ^ 32)%Z /\
  Forall (fun during_drain : list Registry.conn -> list Registry.conn =>
            during_drain [1; 2; 3; 4]%nat = [1; 2; 3; 4]%nat)
    [fun l => l] /\
  exists frame,
    Frame.encode [x68; x69] = Ok frame /\
    Registry.send_to_all_clients Scenario.ascii_encode (fun x => Nat.even x)
      [fun l => l] "hi" [1; 2; 3; 4]%nat =
      Ok (filter (fun x => Nat.even x) [1; 2; 3; 4]%nat,
          map (Registry.write_event (fun x => Nat.even x) frame) [1; 2; 3; 4]%nat ++
          map Registry.Removed
            (filter (fun x => negb (Nat.even x)) [1; 2; 3; 4]%nat)) /\
    Registry.receivers
      (map (Registry.write_event (fun x => Nat.even x) frame) [1; 2; 3; 4]%nat ++
       map Registry.Removed
         (filter (fun x => negb (Nat.even x)) [1; 2; 3; 4]%nat)) =
      filter (fun x => Nat.even x) [1; 2; 3; 4]%nat.
Proof.
  assert (H0 : Scenario.ascii_encode "hi" = Ok [x68; x69]) by reflexivity.
  assert (H1 : (Frame.len [x68; x69] < 2 ^ 32)%Z) by reflexivity.
  assert (H2 : Forall (fun during_drain : list Registry.conn -> list Registry.conn =>
                         during_drain [1; 2; 3; 4]%nat = [1; 2; 3; 4]%nat)
                 [fun l => l])
    by (repeat constructor).
  split; [exact H0 | split; [exact H1 | split; [exact H2 |]]].
  exact (broadcast_keeps_receivers (fun x => Nat.even x) Scenario.ascii_encode
           [fun l => l] "hi" [x68; x69] [1; 2; 3; 4]%nat H0 H1 H2).
Defined.

Lemma removal_during_drain_skips_next_witness :
  Scenario.ascii_encode "hi" = Ok [x68; x69] /\
  (Frame.len [x68; x69] < 2 ^ 32)%Z /\
  (forall d, In d [1; 3]%nat -> (fun _ : Registry.conn => true) d = true) /\
  exists frame,
    Frame.encode [x68; x69] = Ok frame /\
    Registry.send_to_all_clients Scenario.ascii_encode (fun _ => true)
      [Registry.unregister 1%nat] "hi" [1; 2; 3]%nat =
      Ok ([2; 3]%nat,
          Registry.Wrote 1%nat frame ::
          map (fun d => Registry.Wrote d frame) [3]%nat) /\
    (NoDup [1; 2; 3]%nat ->
     ~ In 2%nat
         (map Registry.target
            (Registry.Wrote 1%nat frame ::
             map (fun d => Registry.Wrote d frame) [3]%nat))).
Proof.
  assert (H0 : Scenario.ascii_encode "hi" = Ok [x68; x69]) by reflexivity.
  assert (H1 : (Frame.len [x68; x69] < 2 ^ 32)%Z) by reflexivity.
  assert (H2 : forall d, In d [1; 3]%nat -> (fun _ : Registry.conn => true) d = true)
    by reflexivity.
  split; [exact H0 | split; [exact H1 | split; [exact H2 |]]].
  exact (removal_during_drain_skips_next (fun _ => true) Scenario.ascii_encode
           "hi" [x68; x69] 1%nat 2%nat [3]%nat H0 H1 H2).
Defined.

Section RegistryEdges.

Import Registry.
Local Open Scope nat_scope.

(** X17. A message that cannot be encoded or framed (text that UTF-8
    refuses, or 2^32 bytes or more): with at least one registered connection
    the broadcast raises that exception before any write and the registry
    is not touched; with none it returns without looking at the message.
    No write is awaited, so what the other tasks would do plays no part. *)
Theorem broadcast_unframeable
  (utf8_encode : string -> result Frame.bytes) (write_ok : conn -> bool)
  (others : list (list conn -> list conn))
  (message : string) (e : exn) (clients : list conn) :
  (utf8_encode message = Raise e \/
   exists message_bytes,
     utf8_encode message = Ok message_bytes /\
     (2 ^ 32 <= Frame.len message_bytes)%Z /\ e = OverflowError) ->
  send_to_all_clients utf8_encode write_ok others message clients =
    match clients with
    | [] => Ok ([], [])
    | _ :: _ => Raise e
    end.
Proof.
  intros H. unfold send_to_all_clients.
  destruct clients; [reflexivity|].
  destruct H as [-> | (message_bytes & -> & Hlen & ->)]; [reflexivity|].
  cbn [bind]. now rewrite (encode_overflow _ Hlen).
Qed.

Lemma broadcast_unframeable_witness :
  ((fun _ : string => @Raise Frame.bytes ValueError) "x"%string = Raise ValueError \/
   exists message_bytes,
     (fun _ : string => @Raise Frame.bytes ValueError) "x"%string = Ok message_bytes /\
     (2 ^ 32 <= Frame.len message_bytes)%Z /\ ValueError = OverflowError) /\
  send_to_all_clients (fun _ : string => @Raise Frame.bytes ValueError)
    (fun _ => true) [unregister 1] "x" [1; 2] =
    match [1; 2] with
    | [] => Ok ([], [])
    | _ :: _ => Raise ValueError
    end.
Proof.
  assert (H : (fun _ : string => @Raise Frame.bytes ValueError) "x"%string =
              Raise ValueError \/
              exists message_bytes,
                (fun _ : string => @Raise Frame.bytes ValueError) "x"%string =
                  Ok message_bytes /\
                (2 ^ 32 <= Frame.len message_bytes)%Z /\ ValueError = OverflowError)
    by (left; reflexivity).
  split; [exact H |].
  exact (broadcast_unframeable (fun _ : string => @Raise Frame.bytes ValueError)
           (fun _ => true) [unregister 1] "x" ValueError [1; 2] H).
Defined.

Lemma remove_snoc_fresh (c : conn) (clients : list conn) :
  ~ In c clients -> remove c (clients ++ [c]) = clients.
Proof.
  intros Hc. induction clients as [|a l IH]; cbn [app remove].
  - now rewrite Nat.eqb_refl.
  - destruct (Nat.eqb c a) eqn:E.
    + apply Nat.eqb_eq in E. subst. exfalso. apply Hc. now left.
    + rewrite IH; [reflexivity | intros H; apply Hc; now right].
Qed.

(** X18. A connection that registers and, nothing else having changed,
    unregisters leaves the registry as it found it. *)
Theorem register_then_unregister (c : conn) (clients : list conn) :
  ~ In c clients ->
  unregister c (register c clients) = clients.
Proof.
  intros Hc. unfold unregister, register.
  assert (Hm : mem c (clients ++ [c]) = true)
    by (apply mem_In, in_or_app; right; now left).
  rewrite Hm. now apply remove_snoc_fresh.
Qed.

Lemma register_then_unregister_witness :
  ~ In 7 [1; 2; 3] /\ unregister 7 (register 7 [1; 2; 3]) = [1; 2; 3].
Proof.
  assert (H : ~ In 7 [1; 2; 3]) by (cbn; intros [H | [H | [H | []]]]; discriminate).
  split; [exact H | exact (register_then_unregister 7 [1; 2; 3] H)].
Defined.

Lemma remove_In (c d : conn) (clients : list conn) :
  In d (remove c clients) -> In d clients.
Proof.
  induction clients as [|a l IH]; cbn [remove]; [tauto|].
  destruct (Nat.eqb c a); cbn [In]; tauto.
Qed.

Lemma remove_other (c d : conn) (clients : list conn) :
  d <> c -> In d clients -> In d (remove c clients).
Proof.
  intros Hne. induction clients as [|a l IH]; cbn [remove In]; [tauto|].
  destruct (Nat.eqb c a) eqn:E.
  - apply Nat.eqb_eq in E. subst. intros [H | H]; [congruence | exact H].
  - cbn [In]. tauto.
Qed.

Lemma remove_NoDup_not_In (c : conn) (clients : list conn) :
  NoDup clients -> ~ In c (remove c clients).
Proof.
  induction clients as [|a l IH]; intros Hnd; cbn [remove]; [tauto|].
  inversion Hnd as [|? ? Ha Hl]; subst.
  destruct (Nat.eqb c a) eqn:E.
  - apply Nat.eqb_eq in E. now subst.
  - apply Nat.eqb_neq in E. cbn [In]. intros [H | H]; [congruence | now apply IH].
Qed.

(** X19. In a registry without duplicates, the [finally] block of
    [handle_client] leaves the connection out, keeps every other connection,
    and does nothing more when it runs a second time. *)
Theorem unregister_removes_once (c : conn) (clients : list conn) :
  NoDup clients ->
  ~ In c (unregister c clients) /\
  (forall d, d <> c -> (In d (unregister c clients) <-> In d clients)) /\
  unregister c (unregister c clients) = unregister c clients.
Proof.
  intros Hnd. split; [|split].
  - unfold unregister. destruct (mem c clients) eqn:Em.
    + now apply remove_NoDup_not_In.
    + intros H. apply mem_In in H. congruence.
  - intros d Hne. unfold unregister. destruct (mem c clients); [|tauto].
    split; [apply remove_In | now apply remove_other].
  - now apply unregister_twice.
Qed.

Lemma unregister_removes_once_witness :
  NoDup [1; 2; 3] /\
  ~ In 2 (unregister 2 [1; 2; 3]) /\
  (forall d, d <> 2 -> (In d (unregister 2 [1; 2; 3]) <-> In d [1; 2; 3])) /\
  unregister 2 (unregister 2 [1; 2; 3]) = unregister 2 [1; 2; 3].
Proof.
  assert (H : NoDup [1; 2; 3]).
  { repeat constructor; cbn; intros H;
      repeat (destruct H as [H | H]; [discriminate|]); exact H. }
  split; [exact H | exact (unregister_removes_once 2 [1; 2; 3] H)].
Defined.

End RegistryEdges.

(* ================================================================= *)
(** ** Server: the reader of a connection and the key commands *)

Section ServerFacts.

Import Registry.
Local Open Scope nat_scope.

Variable utf8_decode : Frame.bytes -> result string.

Lemma receive_shrinks (buf rest : Frame.bytes) (message : string) :
  Supervisor.receive utf8_decode buf = Ok (message, rest) ->
  List.length rest + 4 <= List.length buf.
Proof.
  unfold Supervisor.receive, Frame.decode. intros H.
  destruct (Frame.readexactly 4 buf) as [[length_data rest0]|e] eqn:E1;
    [|discriminate].
  cbn [bind] in H.
  destruct (Frame.readexactly (Frame.from_bytes length_data) rest0)
    as [[data rest1]|e] eqn:E2; [|discriminate].
  cbn [bind] in H.
  destruct (utf8_decode data); [|discriminate]. cbn [bind] in H.
  injection H as _ <-.
  destruct (readexactly_inv _ _ _ _ E1) as [-> H4].
  destruct (readexactly_inv _ _ _ _ E2) as [-> _].
  unfold Frame.len in H4. rewrite !length_app. lia.
Qed.

Lemma read_loop_ends (fuel : nat) :
  forall buf, List.length buf < fuel ->
  exists messages e, Server.read_loop utf8_decode fuel buf = Some (messages, e).
Proof.
  induction fuel as [|fuel IH]; intros buf Hlt; [lia|].
  cbn [Server.read_loop].
  destruct (Supervisor.receive utf8_decode buf) as [[message rest]|e] eqn:E.
  - pose proof (receive_shrinks _ _ _ E) as Hs.
    destruct (IH rest) as (ms & e & ->); [lia|]. now exists (message :: ms), e.
  - now exists [], e.
Qed.

(** X20. On any stream that the peer has closed, the reader of a connection
    ends: the loop is left by the exception of a read, and the [finally]
    block runs. Afterwards, in a registry without duplicates, the connection
    is not registered and every other connection is as it was. *)
Theorem handle_client_ends
  (c : conn) (buf : Frame.bytes) (during : list conn -> list conn)
  (clients : list conn) :
  NoDup (during (register c clients)) ->
  exists messages e registry,
    Server.handle_client utf8_decode c buf during clients =
      Some (messages, e, registry) /\
    ~ In c registry /\
    forall d, d <> c -> (In d registry <-> In d (during (register c clients))).
Proof.
  intros Hnd. unfold Server.handle_client.
  destruct (read_loop_ends (S (List.length buf)) buf) as (ms & e & ->); [lia|].
  exists ms, e, (unregister c (during (register c clients))).
  split; [reflexivity|].
  split.
  - unfold unregister. destruct (mem c (during (register c clients))) eqn:Em.
    + now apply remove_NoDup_not_In.
    + intros H. apply mem_In in H. congruence.
  - intros d Hne. unfold unregister.
    destruct (mem c (during (register c clients))); [|tauto].
    split; [apply remove_In | now apply remove_other].
Qed.

End ServerFacts.

Lemma handle_client_ends_witness :
  NoDup ((fun l => l) (Registry.register 3%nat [1; 2]%nat)) /\
  exists messages e registry,
    Server.handle_client Scenario.ascii_decode 3%nat
      [x00; x00; x00; x02; x68; x69; x00] (fun l => l) [1; 2]%nat =
      Some (messages, e, registry) /\
    ~ In 3%nat registry /\
    forall d, d <> 3%nat ->
      (In d registry <-> In d ((fun l => l) (Registry.register 3%nat [1; 2]%nat))).
Proof.
  assert (H : NoDup ((fun l => l) (Registry.register 3%nat [1; 2]%nat))).
  { repeat constructor; cbn; intros H;
      repeat (destruct H as [H | H]; [discriminate|]); exact H. }
  split; [exact H |].
  exact (handle_client_ends Scenario.ascii_decode 3%nat
           [x00; x00; x00; x02; x68; x69; x00] (fun l => l) [1; 2]%nat H).
Defined.

Section StreamFacts.

Import Registry.
Local Open Scope nat_scope.

Variable utf8_encode : string -> result Frame.bytes.
Variable utf8_decode : Frame.bytes -> result string.

Lemma stream_of_length (messages : list string) (buf : Frame.bytes) :
  Server.stream_of utf8_encode messages = Ok buf ->
  List.length messages <= List.length buf.
Proof.
  revert buf. induction messages as [|m ms IH]; intros buf H; [cbn; lia|].
  cbn [Server.stream_of] in H.
  destruct (utf8_encode m) as [b|]; [|discriminate]. cbn [bind] in H.
  destruct (Frame.encode b) as [frame|] eqn:Ef; [|discriminate]. cbn [bind] in H.
  destruct (Server.stream_of utf8_encode ms) as [tail|]; [|discriminate].
  cbn [bind] in H. injection H as <-.
  destruct (encode_inv _ _ Ef) as [_ ->].
  specialize (IH tail eq_refl).
  rewrite !length_app, length_rev, digits_le_length. cbn [List.length]. lia.
Qed.

Lemma read_loop_stream (messages : list string) :
  forall (buf : Frame.bytes) (fuel : nat),
  Server.stream_of utf8_encode messages = Ok buf ->
  (forall m b, In m messages -> utf8_encode m = Ok b -> utf8_decode b = Ok m) ->
  List.length messages < fuel ->
  Server.read_loop utf8_decode fuel buf = Some (messages, IncompleteReadError).
Proof.
  induction messages as [|m ms IH]; intros buf fuel H Hcodec Hfuel.
  - cbn in H. injection H as <-. destruct fuel; [cbn in Hfuel; lia|]. reflexivity.
  - destruct fuel as [|fuel]; [lia|].
    cbn [Server.stream_of] in H.
    destruct (utf8_encode m) as [b|] eqn:Eb; [|discriminate]. cbn [bind] in H.
    destruct (Frame.encode b) as [frame|] eqn:Ef; [|discriminate]. cbn [bind] in H.
    destruct (Server.stream_of utf8_encode ms) as [tail|] eqn:Et; [|discriminate].
    cbn [bind] in H. injection H as <-.
    cbn [Server.read_loop]. unfold Supervisor.receive.
    rewrite (decode_encode _ _ tail Ef). cbn [bind].
    rewrite (Hcodec m b (or_introl eq_refl) Eb). cbn [bind].
    rewrite (IH tail fuel eq_refl); [reflexivity | | cbn [List.length] in Hfuel; lia].
    intros m' b' Hin. apply Hcodec. now right.
Qed.

(** X21. Messages framed one after the other on a connection are read back
    one by one, in order and unchanged, by the reader of the connection,
    which then ends on the short read at the end of the stream and
    unregisters the connection. *)
Theorem stream_read_back
  (c : conn) (messages : list string) (buf : Frame.bytes)
  (during : list conn -> list conn) (clients : list conn) :
  Server.stream_of utf8_encode messages = Ok buf ->
  (forall m b, In m messages -> utf8_encode m = Ok b -> utf8_decode b = Ok m) ->
  Server.handle_client utf8_decode c buf during clients =
    Some (messages, IncompleteReadError,
          unregister c (during (register c clients))).
Proof.
  intros Hs Hcodec. unfold Server.handle_client.
  rewrite (read_loop_stream messages buf (S (List.length buf)) Hs Hcodec);
    [reflexivity|].
  pose proof (stream_of_length _ _ Hs). lia.
Qed.

End StreamFacts.

Lemma stream_read_back_witness :
  Server.stream_of Scenario.ascii_encode ["hi"; ""; "F1"]%string =
    Ok [x00; x00; x00; x02; x68; x69;
        x00; x00; x00; x00;
        x00; x00; x00; x02; x46; x31] /\
  (forall m b, In m ["hi"; ""; "F1"]%string ->
     Scenario.ascii_encode m = Ok b -> Scenario.ascii_decode b = Ok m) /\
  Server.handle_client Scenario.ascii_decode 3%nat
    [x00; x00; x00; x02; x68; x69;
     x00; x00; x00; x00;
     x00; x00; x00; x02; x46; x31] (fun l => l) [1; 2]%nat =
    Some (["hi"; ""; "F1"]%string, IncompleteReadError,
          Registry.unregister 3%nat ((fun l => l) (Registry.register 3%nat [1; 2]%nat))).
Proof.
  assert (H1 : Server.stream_of Scenario.ascii_encode ["hi"; ""; "F1"]%string =
               Ok [x00; x00; x00; x02; x68; x69;
                   x00; x00; x00; x00;
                   x00; x00; x00; x02; x46; x31]) by reflexivity.
  assert (H2 : forall m b, In m ["hi"; ""; "F1"]%string ->
                 Scenario.ascii_encode m = Ok b -> Scenario.ascii_decode b = Ok m).
  { intros m b _ [= <-]. unfold Scenario.ascii_decode.
    now rewrite string_of_list_byte_of_string. }
  split; [exact H1 | split; [exact H2 |]].
  exact (stream_read_back Scenario.ascii_encode Scenario.ascii_decode 3%nat
           ["hi"; ""; "F1"]%string _ (fun l => l) [1; 2]%nat H1 H2).
Defined.

Section KeyCommands.

Import Registry Router.
Local Open Scope Q_scope.

(** X22. A key that is bound on the server, pressed while every write
    works and the other tasks leave the registry as it is: each registered
    connection is sent one frame; what a client reads
    from that frame is the text of the command; and a client whose cooldown
    has elapsed handles it as an execute command and goes to Active on the
    window bound to the key. The built-in codecs are taken to give back what
    they were given. *)
Theorem key_press_reaches_clients
  (upper lower : string -> string)
  (json_dumps : pyval -> string) (json_loads : string -> result pyval)
  (utf8_encode : string -> result Frame.bytes)
  (utf8_decode : Frame.bytes -> result string)
  (py_str : pyval -> string) (env : Action.Env) (cfg : Action.Config)
  (keybinds : list (string * pyval)) (key : string) (window : pyval)
  (others : list (list conn -> list conn))
  (clients : list conn) (message_bytes : Frame.bytes)
  (t_check t_set : Q) (w : world) :
  Forall (fun during_drain => during_drain clients = clients) others ->
  lookup (upper key) keybinds = Some window ->
  truthy window = true ->
  json_loads (json_dumps (Server.key_command lower key window)) =
    Ok (Server.key_command lower key window) ->
  utf8_encode (json_dumps (Server.key_command lower key window)) = Ok message_bytes ->
  utf8_decode message_bytes = Ok (json_dumps (Server.key_command lower key window)) ->
  (Frame.len message_bytes < 2 ^ 32)%Z ->
  can_execute_action (state_manager w) t_check = true ->
  exists frame,
    Server.send_key_command upper lower json_dumps utf8_encode (fun _ => true)
      others keybinds key clients =
      Ok (clients, map (fun d => Wrote d frame) clients) /\
    Supervisor.receive utf8_decode frame =
      Ok (json_dumps (Server.key_command lower key window), []) /\
    state_manager
      (handle_server_message json_loads py_str env cfg
         (json_dumps (Server.key_command lower key window)) t_check t_set w) =
      set_active_window py_str (state_manager w) window t_set.
Proof.
  intros Hquiet Hkey Htruthy Hjson Henc Hdec Hlen Hcan.
  exists (rev (Frame.digits_le 4 (Frame.len message_bytes)) ++ message_bytes).
  pose proof (encode_ok _ Hlen) as Hframe.
  split; [|split].
  - unfold Server.send_key_command. rewrite Hkey.
    unfold send_to_all_clients. destruct clients as [|a rest] eqn:Ecl; [reflexivity|].
    rewrite <- Ecl in *. rewrite Henc. cbn [bind]. rewrite Hframe. cbn [bind].
    rewrite (write_loop_live_from (fun _ => true) _ others clients Hquiet 0).
    cbn [skipn].
    rewrite (receivers_all_ok (fun _ => true)) by reflexivity.
    cbn [fst snd remove_loop]. now rewrite app_nil_r.
  - unfold Supervisor.receive.
    pose proof (decode_encode _ _ [] Hframe) as Hd. rewrite app_nil_r in Hd.
    rewrite Hd. cbn [bind]. now rewrite Hdec.
  - apply (transition_recorded json_loads py_str env cfg _
             (Server.key_command lower key window) window
             (PStr (lower key ++ "_action")) t_check t_set w Hjson);
      [|exact Hcan].
    repeat split. exact Htruthy.
Qed.

Lemma key_press_reaches_clients_witness :
  Forall (fun during_drain : list conn -> list conn =>
            during_drain [1; 2]%nat = [1; 2]%nat) [fun l => l] /\
  lookup (Demo.upper "f1") Demo.keybinds = Some (PStr "window1") /\
  truthy (PStr "window1") = true /\
  Scenario.loads (Demo.dumps (Server.key_command Demo.lower "f1" (PStr "window1"))) =
    Ok (Server.key_command Demo.lower "f1" (PStr "window1")) /\
  Scenario.ascii_encode
    (Demo.dumps (Server.key_command Demo.lower "f1" (PStr "window1"))) =
    Ok [x46; x31] /\
  Scenario.ascii_decode [x46; x31] =
    Ok (Demo.dumps (Server.key_command Demo.lower "f1" (PStr "window1"))) /\
  (Frame.len [x46; x31] < 2 ^ 32)%Z /\
  can_execute_action (state_manager Scenario.fresh) Scenario.t0 = true /\
  exists frame,
    Server.send_key_command Demo.upper Demo.lower Demo.dumps Scenario.ascii_encode
      (fun _ => true) [fun l => l] Demo.keybinds "f1" [1; 2]%nat =
      Ok ([1; 2]%nat, map (fun d => Wrote d frame) [1; 2]%nat) /\
    Supervisor.receive Scenario.ascii_decode frame =
      Ok (Demo.dumps (Server.key_command Demo.lower "f1" (PStr "window1")), []) /\
    state_manager
      (handle_server_message Scenario.loads str_on_strings Scenario.env_ok
         Scenario.cfg
         (Demo.dumps (Server.key_command Demo.lower "f1" (PStr "window1")))
         Scenario.t0 Scenario.t0 Scenario.fresh) =
      set_active_window str_on_strings (state_manager Scenario.fresh)
        (PStr "window1") Scenario.t0.
Proof.
  assert (H0 : Forall (fun during_drain : list conn -> list conn =>
                         during_drain [1; 2]%nat = [1; 2]%nat) [fun l => l])
    by (repeat constructor).
  assert (H1 : lookup (Demo.upper "f1") Demo.keybinds = Some (PStr "window1"))
    by reflexivity.
  assert (H2 : truthy (PStr "window1") = true) by reflexivity.
  assert (H3 : Scenario.loads
                 (Demo.dumps (Server.key_command Demo.lower "f1" (PStr "window1"))) =
               Ok (Server.key_command Demo.lower "f1" (PStr "window1")))
    by reflexivity.
  assert (H4 : Scenario.ascii_encode
                 (Demo.dumps (Server.key_command Demo.lower "f1" (PStr "window1"))) =
               Ok [x46; x31]) by reflexivity.
  assert (H5 : Scenario.ascii_decode [x46; x31] =
               Ok (Demo.dumps (Server.key_command Demo.lower "f1" (PStr "window1"))))
    by reflexivity.
  assert (H6 : (Frame.len [x46; x31] < 2 ^ 32)%Z) by reflexivity.
  assert (H7 : can_execute_action (state_manager Scenario.fresh) Scenario.t0 = true)
    by reflexivity.
  split; [exact H0 |].
  split; [exact H1 | split; [exact H2 | split; [exact H3 | split; [exact H4 |
    split; [exact H5 | split; [exact H6 | split; [exact H7 |]]]]]]].
  exact (key_press_reaches_clients Demo.upper Demo.lower Demo.dumps Scenario.loads
           Scenario.ascii_encode Scenario.ascii_decode str_on_strings
           Scenario.env_ok Scenario.cfg Demo.keybinds "f1" (PStr "window1")
           [fun l => l] [1; 2]%nat [x46; x31] Scenario.t0 Scenario.t0 Scenario.fresh
           H0 H1 H2 H3 H4 H5 H6 H7).
Defined.

End KeyCommands.

(* ================================================================= *)
(** ** Connection supervisor: delays, closes and sends *)

Section SupervisorMore.

Import Supervisor.

Lemma sleeps_app (a b : list action) :
  Traces.sleeps (a ++ b) = Traces.sleeps a ++ Traces.sleeps b.
Proof.
  induction a as [|[] a IH]; cbn; rewrite ?IH; reflexivity.
Qed.

Lemma closed_app (a b : list action) :
  Traces.closed (a ++ b) = Traces.closed a ++ Traces.closed b.
Proof.
  induction a as [|[] a IH]; cbn; rewrite ?IH; reflexivity.
Qed.

Lemma read_loop_quiet (reads : list read) (self : AsyncClient) :
  Traces.sleeps (snd (read_loop reads self)) = [] /\
  Traces.closed (snd (read_loop reads self)) = [] /\
  writer (fst (read_loop reads self)) = writer self.
Proof.
  revert self. induction reads as [|r rs IH]; intros self; cbn [read_loop];
    destruct (connected self); try (repeat split; reflexivity).
  destruct r as [send_failed| |]; try (repeat split; reflexivity).
  specialize (IH {| connected := if send_failed then false else true;
                    writer := writer self |}).
  destruct (read_loop rs _) as [s1 a1]. cbn [fst snd writer] in *. exact IH.
Qed.

(** The sleeps of one turn of the loop: none after an accepted connection,
    none when the turn ends the loop, one of 5 seconds otherwise. *)
Lemma connect_once_sleeps (a : attempt) (self : AsyncClient) :
  Traces.sleeps (snd (connect_once a self)) =
    match a with
    | Accepted _ _ => []
    | _ => if leaves a self then [] else [5%Z]
    end.
Proof.
  destruct a as [|w reads|]; cbn [connect_once leaves].
  - destruct (writer self); reflexivity.
  - destruct (read_loop_quiet reads {| connected := true; writer := Some w |})
      as (Hs & _ & _).
    destruct (read_loop reads _) as [s acts1]. cbn [snd] in *.
    cbn [Traces.sleeps]. exact Hs.
  - destruct (writer self); reflexivity.
Qed.

(** X23. The supervisor sleeps only after a refused attempt to connect, at
    most once for each, and every sleep is of 5 seconds: the delay does not
    grow. As long as [wait_closed()] does not raise in the [except] block,
    it sleeps exactly once for each refused attempt. *)
Theorem one_fixed_delay_per_refusal (attempts : list attempt) (self : AsyncClient) :
  (exists n,
     (n <= Traces.refusals attempts)%nat /\
     Traces.sleeps (snd (connect_to_server attempts self)) = repeat 5%Z n) /\
  (Traces.close_failures attempts = 0%nat ->
     Traces.sleeps (snd (connect_to_server attempts self)) =
       repeat 5%Z (Traces.refusals attempts)).
Proof.
  split.
  - revert self. induction attempts as [|a rest IH]; intros self.
    + exists 0%nat. split; [apply Nat.le_refl | reflexivity].
    + cbn [connect_to_server].
      pose proof (connect_once_sleeps a self) as H1.
      destruct (connect_once a self) as [self' acts].
      destruct (IH self') as (n & Hn & Hs).
      destruct (connect_to_server rest self') as [self'' acts'].
      cbn [snd] in *.
      destruct (leaves a self) eqn:El.
      * apply leaves_close_failure in El. destruct El as [-> _].
        cbn [snd]. rewrite H1. exists 0%nat. split; [apply Nat.le_0_l | reflexivity].
      * cbn [snd]. rewrite sleeps_app, H1, Hs.
        destruct a as [|w reads|]; cbn [Traces.refusals].
        -- exists (S n). split; [lia | reflexivity].
        -- exists n. split; [exact Hn | reflexivity].
        -- exists (S n). split; [lia | reflexivity].
  - revert self. induction attempts as [|a rest IH]; intros self Hz; [reflexivity|].
    cbn [connect_to_server].
    pose proof (connect_once_sleeps a self) as H1.
    destruct (connect_once a self) as [self' acts].
    destruct a as [|w reads|]; cbn [Traces.close_failures] in Hz; [| |discriminate];
      specialize (IH self' Hz);
      destruct (connect_to_server rest self') as [self'' acts'];
      cbn [leaves snd Traces.refusals repeat] in *;
      rewrite sleeps_app, H1, IH; reflexivity.
Qed.

(** X24. A writer is closed only when an attempt to connect is refused:
    when every attempt is accepted no writer is ever closed, although each
    new connection replaces the writer of the one before; and after an
    accepted connection followed by [n] refusals, on each of which
    [wait_closed()] returns, its writer has been closed [n] times. *)
Theorem writers_closed_on_refusal_only
  (attempts : list attempt) (w : nat) (reads : list read) (n : nat)
  (self : AsyncClient) :
  (Traces.refusals attempts = 0%nat ->
     Traces.closed (snd (connect_to_server attempts self)) = []) /\
  Traces.closed
    (snd (connect_to_server (Accepted w reads :: repeat Refused n) self)) =
    repeat w n.
Proof.
  split.
  - revert self. induction attempts as [|a rest IH]; intros self Hz; [reflexivity|].
    destruct a as [|w0 reads0|]; [discriminate| |discriminate].
    cbn [Traces.refusals] in Hz. cbn [connect_to_server connect_once leaves].
    destruct (read_loop_quiet reads0 {| connected := true; writer := Some w0 |})
      as (_ & Hc & _).
    destruct (read_loop reads0 _) as [s acts1]. cbn [snd] in Hc.
    specialize (IH s Hz).
    destruct (connect_to_server rest s) as [s' acts'].
    cbn [snd] in *. rewrite closed_app, IH. cbn [Traces.closed]. now rewrite Hc.
  - cbn [connect_to_server connect_once leaves].
    destruct (read_loop_quiet reads {| connected := true; writer := Some w |})
      as (_ & Hc & Hw).
    destruct (read_loop reads _) as [s acts1]. cbn [fst snd writer] in Hc, Hw.
    assert (Hrep : forall k s0, writer s0 = Some w ->
              Traces.closed (snd (connect_to_server (repeat Refused k) s0)) =
              repeat w k).
    { induction k as [|k IHk]; intros s0 Hs0; [reflexivity|].
      cbn [repeat connect_to_server leaves]. rewrite refused_once, Hs0.
      specialize (IHk {| connected := false; writer := Some w |} eq_refl).
      destruct (connect_to_server (repeat Refused k) _) as [s1 a1].
      cbn [snd] in *. cbn [app Traces.closed]. now rewrite IHk. }
    specialize (Hrep n s Hw).
    destruct (connect_to_server (repeat Refused n) s) as [s' acts'].
    cbn [snd] in *. rewrite closed_app. cbn [Traces.closed]. now rewrite Hc, Hrep.
Qed.

(** X30. [await self.writer.wait_closed()] in the [except] block is
    guarded by nothing: when a connection was made, whatever was read from
    it, and the next [open_connection] raises and then [wait_closed()]
    raises on the writer of that connection, the exception leaves
    [connect_to_server]. The writer was closed, [connected] is false, no
    sleep is made on that turn and no further attempt to connect follows,
    whatever the environment would have answered. *)
Theorem close_failure_ends_loop
  (w : nat) (reads : list read) (post : list attempt) (self : AsyncClient) :
  connect_to_server (Accepted w reads :: RefusedCloseRaises :: post) self =
    ({| connected := false; writer := Some w |},
     OpenConnection ::
     snd (read_loop reads {| connected := true; writer := Some w |}) ++
     [OpenConnection; CloseWriter w; LoopLeft]) /\
  Traces.sleeps
    (snd (connect_to_server (Accepted w reads :: RefusedCloseRaises :: post) self)) =
    [].
Proof.
  assert (H : connect_to_server (Accepted w reads :: RefusedCloseRaises :: post) self =
    ({| connected := false; writer := Some w |},
     OpenConnection ::
     snd (read_loop reads {| connected := true; writer := Some w |}) ++
     [OpenConnection; CloseWriter w; LoopLeft])).
  { cbn [connect_to_server connect_once leaves].
    destruct (read_loop_quiet reads {| connected := true; writer := Some w |})
      as (_ & _ & Hw).
    destruct (read_loop reads _) as [s acts1]. cbn [fst snd writer] in *.
    rewrite Hw. reflexivity. }
  split; [exact H|].
  rewrite H. cbn [snd Traces.sleeps]. rewrite sleeps_app.
  destruct (read_loop_quiet reads {| connected := true; writer := Some w |})
    as (Hs & _ & _).
  rewrite Hs. reflexivity.
Qed.

Example reset_then_refused :
  connect_to_server
    [Accepted 1 [ReadException]; RefusedCloseRaises; Accepted 2 [IncompleteRead]]
    init =
    ({| connected := false; writer := Some 1%nat |},
     [OpenConnection; OpenConnection; CloseWriter 1; LoopLeft]).
Proof. reflexivity. Qed.

Example closed_then_refused :
  connect_to_server
    [Accepted 1 [IncompleteRead]; Refused; Accepted 2 [IncompleteRead]] init =
    ({| connected := true; writer := Some 2%nat |},
     [OpenConnection; OpenConnection; CloseWriter 1; Sleep 5; OpenConnection]).
Proof. reflexivity. Qed.

(** X25. [send_message] returns [True] exactly when the client is connected,
    the text is encoded and framed, and the write and the drain complete;
    the client is then as before and the frame written is the frame of the
    text. When it returns [False] after it has tried to write, [connected]
    has been cleared and the writer is kept. *)
Theorem send_message_result
  (utf8_encode : string -> result Frame.bytes) (self : AsyncClient)
  (message : string) (outcome : write_outcome) :
  (fst (fst (send_message utf8_encode self message outcome)) = true <->
     connected self = true /\ writer self <> None /\ outcome = Written /\
     exists message_bytes,
       utf8_encode message = Ok message_bytes /\
       (Frame.len message_bytes < 2 ^ 32)%Z) /\
  (fst (fst (send_message utf8_encode self message outcome)) = true ->
     snd (fst (send_message utf8_encode self message outcome)) = self /\
     exists message_bytes frame,
       utf8_encode message = Ok message_bytes /\
       Frame.encode message_bytes = Ok frame /\
       snd (send_message utf8_encode self message outcome) = Some frame) /\
  (fst (fst (send_message utf8_encode self message outcome)) = false ->
     connected self = true -> writer self <> None ->
     connected (snd (fst (send_message utf8_encode self message outcome))) = false /\
     writer (snd (fst (send_message utf8_encode self message outcome))) =
       writer self).
Proof.
  unfold send_message.
  destruct (connected self) eqn:Ec; cbn [negb orb].
  2:{ split; [split; [discriminate | intros [H _]; discriminate]|].
      split; [discriminate | intros _ H; discriminate]. }
  destruct (writer self) as [wr|] eqn:Ew.
  2:{ split; [split; [discriminate | intros (_ & H & _); contradiction]|].
      split; [discriminate | intros _ _ H; contradiction]. }
  destruct (utf8_encode message) as [b|e] eqn:Eb; cbn [bind].
  2:{ split; [split; [discriminate | intros (_ & _ & _ & b & H & _); discriminate]|].
      split; [discriminate | intros _ _ _; split; reflexivity]. }
  destruct (Z.lt_ge_cases (Frame.len b) (2 ^ 32)) as [Hlt | Hge].
  - rewrite (encode_ok _ Hlt).
    destruct outcome; cbn [fst snd].
    + split; [split; [intros _ | reflexivity]|].
      * repeat split; try discriminate. now exists b.
      * split; [intros _ | discriminate]. split; [reflexivity|].
        exists b, (rev (Frame.digits_le 4 (Frame.len b)) ++ b).
        repeat split. now apply encode_ok.
    + split; [split; [discriminate | intros (_ & _ & H & _); discriminate]|].
      split; [discriminate | intros _ _ _; split; reflexivity].
    + split; [split; [discriminate | intros (_ & _ & H & _); discriminate]|].
      split; [discriminate | intros _ _ _; split; reflexivity].
  - rewrite (encode_overflow _ Hge). cbn [fst snd].
    split; [split; [discriminate|]|].
    + intros (_ & _ & _ & b' & [= <-] & Hlt). lia.
    + split; [discriminate | intros _ _ _; split; reflexivity].
Qed.

Lemma send_then_receive_witness :
  connected {| connected := true; writer := Some 1%nat |} = true /\
  writer {| connected := true; writer := Some 1%nat |} = Some 1%nat /\
  Scenario.ascii_encode "hi" = Ok [x68; x69] /\
  Scenario.ascii_decode [x68; x69] = Ok "hi"%string /\
  (Frame.len [x68; x69] < 2 ^ 32)%Z /\
  exists frame,
    send_message Scenario.ascii_encode
      {| connected := true; writer := Some 1%nat |} "hi" Written =
      (true, {| connected := true; writer := Some 1%nat |}, Some frame) /\
    receive Scenario.ascii_decode (frame ++ [x00]) = Ok ("hi"%string, [x00]).
Proof.
  split; [reflexivity | split; [reflexivity | split; [reflexivity |
    split; [reflexivity | split; [reflexivity |]]]]].
  exact (send_then_receive Scenario.ascii_encode Scenario.ascii_decode
           {| connected := true; writer := Some 1%nat |} 1%nat "hi"
           [x68; x69] [x00] eq_refl eq_refl eq_refl eq_refl eq_refl).
Defined.

End SupervisorMore.

(* ================================================================= *)
(** ** Window table *)

Section SetupFacts.

Import Setup.







Example setup_default_windows :
  setup_windows Demo.default_windows =
  Built [("window1", PDict [("title", PStr "World of Warcraft");
                            ("click_x", PInt 100); ("click_y", PInt 100)]);
         ("window2", PDict [("title", PStr "World of Warcraft");
                            ("click_x", PInt 200); ("click_y", PInt 150)]);
         ("window3", PDict [("title", PStr "World of Warcraft");
                            ("click_x", PInt 300); ("click_y", PInt 200)]);
         ("window4", PDict [("title", PStr "World of Warcraft");
                            ("click_x", PInt 400); ("click_y", PInt 250)]);
         ("window5", PDict [("title", PStr "World of Warcraft");
                            ("click_x", PInt 500); ("click_y", PInt 300)])]%string.
Proof. reflexivity. Qed.

Example setup_missing_coordinate :
  setup_windows
    (PDict [("window1", PDict [("x", PInt 100);
                               ("title", PStr "World of Warcraft")])]%string) =
  Failed (KeyError "y") /\
  setup_windows (PList []) = Failed NoItems /\
  setup_windows (PDict [("window1", PStr "World of Warcraft")]%string) =
  Failed NotSubscriptable /\
  setup_windows (PDict []) = Built [].
Proof. repeat split. Qed.

End SetupFacts.

Lemma unhashable_window_no_reply_witness :
  Scenario.loads "LIST" = Ok Scenario.list_command /\
  Router.is_execute Scenario.list_command (PList [PInt 1]) (PStr "f1_action") /\
  can_execute_action (Router.state_manager Scenario.fresh) Scenario.t0 = true /\
  hashable (PList [PInt 1]) = false /\
  Router.handle_server_message Scenario.loads str_on_strings Scenario.env_ok
    Scenario.cfg "LIST" Scenario.t0 Scenario.t0 Scenario.fresh =
  {| Router.state_manager :=
       set_active_window str_on_strings (Router.state_manager Scenario.fresh)
         (PList [PInt 1]) Scenario.t0;
     Router.sent := Router.sent Scenario.fresh |}.
Proof.
  assert (H1 : Scenario.loads "LIST" = Ok Scenario.list_command) by reflexivity.
  assert (H2 : Router.is_execute Scenario.list_command (PList [PInt 1])
                 (PStr "f1_action")) by (repeat split).
  assert (H3 : can_execute_action (Router.state_manager Scenario.fresh)
                 Scenario.t0 = true) by reflexivity.
  assert (H4 : hashable (PList [PInt 1]) = false) by reflexivity.
  split; [exact H1 | split; [exact H2 | split; [exact H3 | split; [exact H4 |]]]].
  exact (unhashable_window_no_reply Scenario.loads str_on_strings Scenario.env_ok
           Scenario.cfg "LIST" Scenario.list_command (PList [PInt 1])
           (PStr "f1_action") Scenario.t0 Scenario.t0 Scenario.fresh H1 H2 H3 H4).
Defined.
